(** * HashHound: the image traversal and hash-matching engine

    A shallow embedding of [src/core/image_search.py] and
    [src/core/models.py], and the properties of the specification that
    are about them.

    The collaborators of the engine are modelled through the interface
    the code uses:
    - [pytsk3] (image, volume, filesystem, directory and file objects) as
      records of total functions whose failures are results of type
      [res];
    - [hashlib.sha256(..).hexdigest()] as an executable SHA-256
      (FIPS 180-4), checked against the standard test vectors;
    - [time.time()] as a sequence of clock readings, read one at a time,
      and the arithmetic on them as that of floats, with its rounding;
    - the logger and the calls on the filesystem as events appended to a
      trace. *)

From Stdlib Require Import ZArith QArith String Ascii List Lia Lqa.
From Stdlib.Strings Require Import Byte.
From stdpp Require Import gmap strings list.

Open Scope Z_scope.
Open Scope string_scope.

(** ** Python [bytes] and [hashlib.sha256] *)

Definition bytes : Type := list Byte.byte.

Definition bytes_of_string (s : string) : bytes := list_byte_of_string s.

Module SHA256.

Definition w32 (x : Z) : Z := x mod 2 ^ 32.
Definition add32 (x y : Z) : Z := w32 (x + y).
Definition rotr (n x : Z) : Z :=
  Z.lor (Z.shiftr x n) (w32 (Z.shiftl x (32 - n))).
Definition shr (n x : Z) : Z := Z.shiftr x n.
Definition not32 (x : Z) : Z := Z.lxor x 4294967295.

Definition Ch (x y z : Z) : Z := Z.lxor (Z.land x y) (Z.land (not32 x) z).
Definition Maj (x y z : Z) : Z :=
  Z.lxor (Z.lxor (Z.land x y) (Z.land x z)) (Z.land y z).
Definition Sigma0 (x : Z) : Z := Z.lxor (Z.lxor (rotr 2 x) (rotr 13 x)) (rotr 22 x).
Definition Sigma1 (x : Z) : Z := Z.lxor (Z.lxor (rotr 6 x) (rotr 11 x)) (rotr 25 x).
Definition sigma0 (x : Z) : Z := Z.lxor (Z.lxor (rotr 7 x) (rotr 18 x)) (shr 3 x).
Definition sigma1 (x : Z) : Z := Z.lxor (Z.lxor (rotr 17 x) (rotr 19 x)) (shr 10 x).

(** The constants are defined as FIPS 180-4 defines them: the first 32
    bits of the fractional parts of the cube roots, and of the square
    roots, of the first primes. *)
Definition primes : list Z :=
  [ 2; 3; 5; 7; 11; 13; 17; 19; 23; 29; 31; 37; 41; 43; 47; 53;
    59; 61; 67; 71; 73; 79; 83; 89; 97; 101; 103; 107; 109; 113; 127; 131;
    137; 139; 149; 151; 157; 163; 167; 173; 179; 181; 191; 193; 197; 199; 211; 223;
    227; 229; 233; 239; 241; 251; 257; 263; 269; 271; 277; 281; 283; 293; 307; 311 ].

(** The integer cube root of [n] by bisection, between [lo] and [hi]. *)
Fixpoint cube_root (fuel : nat) (lo hi n : Z) : Z :=
  match fuel with
  | O => lo
  | S fuel' =>
      let mid := (lo + hi) / 2 in
      if (mid * mid * mid <=? n)%Z then cube_root fuel' mid hi n
      else cube_root fuel' lo mid n
  end.

Definition K : list Z :=
  Eval vm_compute in
    map (fun p => w32 (cube_root 40 0 (2 ^ 35) (p * 2 ^ 96))) primes.

Definition square_root_bits (p : Z) : Z := w32 (Z.sqrt (p * 2 ^ 64)).

(** The eight working variables, and the chaining value. *)
Record regs := Regs { ra : Z; rb : Z; rc : Z; rd : Z; re : Z; rf : Z; rg : Z; rh : Z }.

Definition H0 : regs :=
  Eval vm_compute in
    Regs (square_root_bits 2) (square_root_bits 3) (square_root_bits 5)
         (square_root_bits 7) (square_root_bits 11) (square_root_bits 13)
         (square_root_bits 17) (square_root_bits 19).

(** Padding: a 1 bit, zeros up to 56 mod 64 bytes, the bit length on 64 bits. *)
Definition be_bytes (n : nat) (v : Z) : list Z :=
  map (fun i => (Z.shiftr v (8 * Z.of_nat i)) mod 256) (rev (seq 0 n)).

Definition pad (msg : list Z) : list Z :=
  let len := Z.of_nat (length msg) in
  let k := Z.to_nat ((55 - len) mod 64) in
  msg ++ [128] ++ repeat 0 k ++ be_bytes 8 (8 * len).

Fixpoint be_words (fuel : nat) (l : list Z) : list Z :=
  match fuel, l with
  | S f, b0 :: b1 :: b2 :: b3 :: rest =>
      (b0 * 16777216 + b1 * 65536 + b2 * 256 + b3) :: be_words f rest
  | _, _ => []
  end.

Fixpoint blocks (fuel : nat) (ws : list Z) : list (list Z) :=
  match fuel, ws with
  | S f, _ :: _ => firstn 16 ws :: blocks f (skipn 16 ws)
  | _, _ => []
  end.

(** The message schedule: [extend n w] appends [n] words to [w]. *)
Fixpoint extend (n : nat) (w : list Z) : list Z :=
  match n with
  | O => w
  | S n' =>
      let t := length w in
      let at_ (i : nat) := nth (t - i) w 0 in
      extend n' (w ++ [add32 (add32 (sigma1 (at_ 2%nat)) (at_ 7%nat))
                             (add32 (sigma0 (at_ 15%nat)) (at_ 16%nat))])
  end.

Definition round (r : regs) (kw : Z * Z) : regs :=
  let t1 := add32 (add32 (add32 (rh r) (Sigma1 (re r))) (Ch (re r) (rf r) (rg r)))
                  (add32 (fst kw) (snd kw)) in
  let t2 := add32 (Sigma0 (ra r)) (Maj (ra r) (rb r) (rc r)) in
  Regs (add32 t1 t2) (ra r) (rb r) (rc r) (add32 (rd r) t1) (re r) (rf r) (rg r).

Definition compress (h : regs) (block : list Z) : regs :=
  let r := fold_left round (combine K (extend 48 block)) h in
  Regs (add32 (ra h) (ra r)) (add32 (rb h) (rb r)) (add32 (rc h) (rc r))
       (add32 (rd h) (rd r)) (add32 (re h) (re r)) (add32 (rf h) (rf r))
       (add32 (rg h) (rg r)) (add32 (rh h) (rh r)).

Definition digest (data : bytes) : regs :=
  let padded := pad (map (fun b => Z.of_N (Byte.to_N b)) data) in
  let ws := be_words (length padded) padded in
  fold_left compress (blocks (length ws) ws) H0.

(** Lowercase hexadecimal, as [hexdigest] prints it. *)
Definition hex_digit (n : Z) : ascii :=
  match n with
  | 0 => "0" | 1 => "1" | 2 => "2" | 3 => "3" | 4 => "4" | 5 => "5" | 6 => "6" | 7 => "7"
  | 8 => "8" | 9 => "9" | 10 => "a" | 11 => "b" | 12 => "c" | 13 => "d" | 14 => "e"
  | _ => "f"
  end%char.

Definition hex_word (w : Z) : string :=
  string_of_list_ascii
    (map (fun i => hex_digit ((Z.shiftr w (4 * Z.of_nat i)) mod 16)) (rev (seq 0 8))).

Definition hexdigest (r : regs) : string :=
  hex_word (ra r) ++ hex_word (rb r) ++ hex_word (rc r) ++ hex_word (rd r) ++
  hex_word (re r) ++ hex_word (rf r) ++ hex_word (rg r) ++ hex_word (rh r).

End SHA256.

(** [hashlib.sha256(data).hexdigest()] *)
Definition sha256_hexdigest (data : bytes) : string :=
  SHA256.hexdigest (SHA256.digest data).


(** ** Python [str] methods used by the engine *)

Definition is_slash (c : ascii) : bool := Ascii.eqb c "/".

(** [s.lstrip("/")], [s.rstrip("/")] and [s.strip("/")] *)
Fixpoint lstrip_slash (s : string) : string :=
  match s with
  | EmptyString => EmptyString
  | String c rest => if is_slash c then lstrip_slash rest else s
  end.

Fixpoint rstrip_slash (s : string) : string :=
  match s with
  | EmptyString => EmptyString
  | String c rest =>
      match rstrip_slash rest with
      | EmptyString => if is_slash c then EmptyString else String c EmptyString
      | kept => String c kept
      end
  end.

Definition strip_slash (s : string) : string := rstrip_slash (lstrip_slash s).

(** [sep.join(parts)] *)
Definition join (sep : string) (parts : list string) : string := String.concat sep parts.

(** [s.replace("//", "/")]: the occurrences are found from the left and do
    not overlap, so the scan resumes after the two characters replaced. *)
Fixpoint replace_double_slash (s : string) : string :=
  match s with
  | EmptyString => EmptyString
  | String c rest =>
      match rest with
      | EmptyString => String c EmptyString
      | String c' rest' =>
          if is_slash c && is_slash c' then String "/" (replace_double_slash rest')
          else String c (replace_double_slash rest)
      end
  end.

(** [s.startswith(p)] *)
Definition startswith (p s : string) : bool := String.prefix p s.

(** [s.split("/")]: never empty, one empty component on the empty string. *)
Fixpoint split_slash (s : string) : list string :=
  match s with
  | EmptyString => [EmptyString]
  | String c rest =>
      if is_slash c then EmptyString :: split_slash rest
      else match split_slash rest with
           | first :: others => String c first :: others
           | [] => [String c EmptyString]
           end
  end.

(** ["/" in s] *)
Fixpoint contains_slash (s : string) : bool :=
  match s with
  | EmptyString => false
  | String c rest => is_slash c || contains_slash rest
  end.

(** ** Exceptions and results *)

(** The exception classes that matter to the handlers of the engine; all of
    them derive from [Exception]. [IOError] is what [pytsk3] raises when an
    object cannot be opened; in Python 3 it is another name of [OSError]. *)
Inductive exn : Type :=
| IOError | RuntimeError | ValueError | OverflowError | ZeroDivisionError
| RecursionError.

Inductive res (A : Type) : Type :=
| Ok (a : A)
| Raise (e : exn).
Arguments Ok {A} a.
Arguments Raise {A} e.

(** ** The [pytsk3] objects *)

Inductive meta_type : Type :=
| TSK_FS_META_TYPE_REG | TSK_FS_META_TYPE_DIR | TSK_FS_META_TYPE_UNDEF.

(** [info.meta]: a timestamp field is [None] when the attribute is absent. *)
Record Meta : Type := {
  meta_type_of : meta_type;
  meta_size : Z;
  meta_crtime : option Z;
  meta_mtime : option Z;
  meta_atime : option Z }.

(** [entry.info]: [info_name] is [None] when [entry.info.name] is false;
    otherwise it holds the text [entry.info.name.name.decode(errors="ignore")],
    which never raises. [info_meta] is [None] when [entry.info.meta] is false. *)
Record Info : Type := {
  info_name : option string;
  info_meta : option Meta }.

(** A directory entry; [entry_info] is [None] when it has no attribute [info]. *)
Record Entry : Type := { entry_info : option Info }.

(** A file object: [file_obj.info.meta] and [file_obj.read_random]. *)
Record File : Type := {
  file_meta : option Meta;
  read_random : Z -> Z -> res bytes }.

(** A mounted filesystem: [fs.open_dir] and [fs.open]. *)
Record FS : Type := {
  open_dir : string -> res (list Entry);
  open : string -> res File }.

Record Partition : Type := { start : Z }.

(** [volume]: its partitions in order, and [volume.info.block_size]. *)
Record Volume : Type := {
  partitions : list Partition;
  block_size : Z }.

(** An opened image: [pytsk3.Volume_Info(img)] and
    [pytsk3.FS_Info(img, offset=..)], whose offset is 0 by default. *)
Record Img : Type := {
  Volume_Info : res Volume;
  FS_Info : Z -> res FS }.

(** The library: [pytsk3.Img_Info(image_path)]. *)
Record Pytsk3 : Type := { Img_Info : string -> res Img }.

(** ** [core/models.py] *)

Record datetime : Type := { timestamp : Z }.

(** [datetime.datetime.fromtimestamp] on an integer, as CPython 3.11 does
    it on 64-bit Linux in the time zone UTC (another zone shifts the
    bounds by its offset). From the outside in: [OverflowError] when the
    timestamp does not fit the 64 bits of [time_t]; [OSError], that is
    [IOError], when its year does not fit the 32 bits of the C library;
    [ValueError] when its year is not one of 1 to 9999, and also on the
    first day of the year 1, which CPython refuses. *)
Definition fromtimestamp (t : Z) : res datetime :=
  if ((t <? -9223372036854775808) || (9223372036854775807 <? t))%Z
  then Raise OverflowError
  else if ((t <? -67768040609740800) || (67768036191676799 <? t))%Z
  then Raise IOError
  else if ((t <? -62135510400) || (253402300799 <? t))%Z
  then Raise ValueError
  else Ok {| timestamp := t |}.

Record Finding : Type := {
  hash_value : string;
  file_path : string;
  file_size : Z;
  file_name : string;
  partition_offset : option Z;
  created_time : option datetime;
  modified_time : option datetime;
  accessed_time : option datetime }.

(** ** Effects: the clock and the trace *)

Inductive level : Type := DEBUG | INFO | WARNING | ERROR.

(** The messages of the logger, by their arguments. *)
Inductive message : Type :=
| Searching_partition (offset : Z)
| Could_not_access_filesystem (offset : Z) (e : exn)
| No_partition_table
| Error_opening_image (image_path : string) (e : exn)
| Starting_filesystem_search
| Processing_file (path : string)
| Found_matching_file (file_hash path : string)
| Error_processing_file (path : string) (e : exn)
| Search_progress (processed matches : Z) (files_per_second : Q)
| Search_completed (processed matches : Z) (total_time avg_rate : Q).

Inductive event : Type :=
| Call_open (path : string)
| Call_read_random (path : string) (offset len : Z)
| Call_sha256 (data : bytes)
| Log (lvl : level) (msg : message).

(** [clock n] is the float that the [n]-th call of [time.time()] returns;
    [reads] counts the calls made so far. The trace is in order of
    occurrence. *)
Record World : Type := {
  clock : nat -> Q;
  reads : nat;
  trace : list event }.

Definition M (A : Type) : Type := World -> res A * World.

Definition ret {A} (a : A) : M A := fun w => (Ok a, w).

Definition bind {A B} (m : M A) (k : A -> M B) : M B :=
  fun w => match m w with
           | (Ok a, w') => k a w'
           | (Raise e, w') => (Raise e, w')
           end.

Definition raise {A} (e : exn) : M A := fun w => (Raise e, w).

(** A call of the library: its result, or the exception it raises. *)
Definition lift {A} (r : res A) : M A := fun w => (r, w).

(** [try: m except Exception as e: handler e] *)
Definition try_except {A} (m : M A) (handler : exn -> M A) : M A :=
  fun w => match m w with
           | (Ok a, w') => (Ok a, w')
           | (Raise e, w') => handler e w'
           end.

Definition emit (ev : event) : M unit :=
  fun w => (Ok tt, {| clock := clock w; reads := reads w; trace := trace w ++ [ev] |}).

Definition time_time : M Q :=
  fun w => (Ok (clock w (reads w)),
            {| clock := clock w; reads := S (reads w); trace := trace w |}).

Declare Scope py_scope.
Delimit Scope py_scope with py.
Notation "x <- m ;; k" := (bind m (fun x => k))
  (at level 100, m at next level, right associativity) : py_scope.
Notation "m ;;; k" := (bind m (fun _ => k))
  (at level 100, right associativity) : py_scope.
Open Scope py_scope.

(** Modelled from the spec: [core/logger.py], which provides [get_logger], is
    not among the sources; logging is a transport that only records, so a
    call of the logger appends its message to the trace and never raises. *)
Definition logger (lvl : level) (msg : message) : M unit := emit (Log lvl msg).

(** ** [walk_fs]

    A generator is modelled by what it yields, in order, and by how it
    ends: [None] when it returns, [Some e] when the exception [e] leaves
    it. Its only effect is to call [fs.open_dir] on a static image. *)

Definition generated : Type := list string * option exn.

(** [yield from g] followed by the rest of the generator: the rest runs
    only when [g] returns. *)
Definition yield_from (g : generated) (rest : generated) : generated :=
  match snd g with
  | Some e => (fst g, Some e)
  | None => ((fst g ++ fst rest)%list, snd rest)
  end.

(** [yield p] followed by the rest of the generator. *)
Definition yield (p : string) (rest : generated) : generated :=
  (p :: fst rest, snd rest).

(** [name in [".", ".."] or name.startswith("$")] *)
Definition filtered_name (name : string) : bool :=
  bool_decide (name ∈ ["."; ".."]) || startswith "$" name.

(** [entry.info.meta and entry.info.meta.type == pytsk3.TSK_FS_META_TYPE_DIR] *)
Definition is_directory (info : Info) : bool :=
  match info_meta info with
  | Some meta =>
      match meta_type_of meta with TSK_FS_META_TYPE_DIR => true | _ => false end
  | None => false
  end.

(** The body of [for entry in directory], with [recurse] for the call of
    [walk_fs] on a subdirectory. *)
Fixpoint walk_entries (recurse : string -> generated) (path : string)
    (directory : list Entry) : generated :=
  match directory with
  | [] => ([], None)
  | entry :: rest =>
      match entry_info entry with
      | None => walk_entries recurse path rest
      | Some info =>
          match info_name info with
          | None => walk_entries recurse path rest
          | Some name =>
              if filtered_name name then walk_entries recurse path rest
              else
                let full_path :=
                  replace_double_slash (join "/" [strip_slash path; name]) in
                if is_directory info
                then yield_from (recurse ("/" ++ full_path))
                                (walk_entries recurse path rest)
                else yield ("/" ++ full_path) (walk_entries recurse path rest)
          end
      end
  end.

(** [depth] is the number of nested generator frames the interpreter still
    allows; entering one more raises [RecursionError]. *)
Fixpoint walk_fs (depth : nat) (fs : FS) (path : string) : generated :=
  match depth with
  | O => ([], Some RecursionError)
  | S depth' =>
      match open_dir fs path with
      | Raise IOError => ([], None)
      | Raise e => ([], Some e)
      | Ok directory => walk_entries (walk_fs depth' fs) path directory
      end
  end.

(** ** Python [float]

    [time.time()] returns a float, an IEEE 754 number of 64 bits, and the
    engine subtracts, compares and divides such numbers. A float is
    modelled by the rational it stands for, and an operation by the exact
    operation followed by the rounding [fl] that the processor applies: to
    the nearest number with a significand of 53 bits, to the even
    significand when two are as near. The exponent is not bounded here, so
    there is neither infinity nor underflow. A difference of two floats
    never underflows; where Python's difference is infinite, it is a large
    finite number here, which the comparisons with 1.0 and 0.0 treat
    alike; a quotient beyond the range of Python's floats differs from
    Python's in the rate that is logged only. *)

(** [n / d] rounded to the nearest integer, to the even one at a tie;
    [d] is positive. *)
Definition round_half_even (n d : Z) : Z :=
  let q := (n / d)%Z in
  match (2 * (n mod d) ?= d)%Z with
  | Lt => q
  | Gt => (q + 1)%Z
  | Eq => if Z.even q then q else (q + 1)%Z
  end.

(** The [k] with [2 ^ k <= n / d < 2 ^ (k + 1)], for positive [n] and [d]. *)
Definition floor_log2 (n d : Z) : Z :=
  let k := (Z.log2 n - Z.log2 d)%Z in
  if (if (0 <=? k)%Z then (n <? d * 2 ^ k)%Z else (n * 2 ^ (- k) <? d)%Z)
  then (k - 1)%Z else k.

(** The float nearest to [n / d], for positive [n] and [d]: the
    significand is [n / d] scaled into 53 bits and rounded. *)
Definition fl_pos (n d : Z) : Q :=
  let e := (floor_log2 n d - 52)%Z in
  if (0 <=? e)%Z
  then inject_Z (round_half_even n (d * 2 ^ e) * 2 ^ e)
  else (round_half_even (n * 2 ^ (- e)) d # Z.to_pos (2 ^ (- e)))%Q.

Definition fl (x : Q) : Q :=
  let r := Qred x in
  match Qnum r with
  | Z0 => 0%Q
  | Zpos _ => fl_pos (Qnum r) (Zpos (Qden r))
  | Zneg _ => (- fl_pos (- Qnum r) (Zpos (Qden r)))%Q
  end.

(** [a - b] on floats, and [float(n)] for an integer. *)
Definition fsub (a b : Q) : Q := fl (a - b).

Definition float_of_int (n : Z) : Q := fl (inject_Z n).

(** Python's [a < b] and [a / b] on floats. *)
Definition Qlt_bool (a b : Q) : bool := negb (Qle_bool b a).

Definition py_div (a b : Q) : M Q :=
  if Qeq_bool b 0 then raise ZeroDivisionError else ret (fl (a / b)).

(** ** [search_filesystem] *)

(** The local variables that the loop updates. *)
Record locals : Type := {
  findings : list Finding;
  processed_files : Z;
  matches_found : Z;
  last_progress_time : Q }.

(** [datetime.datetime.fromtimestamp(meta.x)] when [meta] has the attribute
    [x] and it is not zero. *)
Definition extract_time (field : option Z) : M (option datetime) :=
  match field with
  | Some t =>
      if (t =? 0)%Z then ret None
      else (d <- lift (fromtimestamp t) ;; ret (Some d))
  | None => ret None
  end.

(** The body of the [try] statement of the loop. Nothing can raise after
    the first update of a local variable, so the handler resumes from the
    locals as they were before the [try]. *)
Definition try_body (fs : FS) (hashes : gset string) (partition_offset : option Z)
    (st : locals) (file_path : string) : M locals :=
  logger DEBUG (Processing_file file_path) ;;;
  emit (Call_open file_path) ;;;
  file_obj <- lift (open fs file_path) ;;
  let size := match file_meta file_obj with Some meta => meta_size meta | None => 0%Z end in
  let file_name :=
    if contains_slash file_path then List.last (split_slash file_path) file_path
    else file_path in
  created_time <- match file_meta file_obj with
                  | Some meta => extract_time (meta_crtime meta) | None => ret None end ;;
  modified_time <- match file_meta file_obj with
                   | Some meta => extract_time (meta_mtime meta) | None => ret None end ;;
  accessed_time <- match file_meta file_obj with
                   | Some meta => extract_time (meta_atime meta) | None => ret None end ;;
  data <- (if (size =? 0)%Z then ret []
           else (emit (Call_read_random file_path 0 size) ;;;
                 lift (read_random file_obj 0 size))) ;;
  emit (Call_sha256 data) ;;;
  let file_hash := sha256_hexdigest data in
  if bool_decide (file_hash ∈ hashes) then
    let finding := {|
      hash_value := file_hash;
      file_path := file_path;
      file_size := size;
      file_name := file_name;
      partition_offset := partition_offset;
      created_time := created_time;
      modified_time := modified_time;
      accessed_time := accessed_time |} in
    logger INFO (Found_matching_file file_hash file_path) ;;;
    ret {| findings := (findings st ++ [finding])%list;
           processed_files := processed_files st;
           matches_found := matches_found st + 1;
           last_progress_time := last_progress_time st |}
  else ret st.

(** One iteration of [for file_path in walk_fs(fs)]. *)
Definition iteration (fs : FS) (hashes : gset string) (partition_offset : option Z)
    (progress_interval start_time : Q) (st : locals) (file_path : string) : M locals :=
  st <- try_except (try_body fs hashes partition_offset st file_path)
          (fun e => logger WARNING (Error_processing_file file_path e) ;;; ret st) ;;
  let processed_files := (processed_files st + 1)%Z in
  current_time <- time_time ;;
  if Qle_bool progress_interval (fsub current_time (last_progress_time st)) then
    let elapsed_time := fsub current_time start_time in
    files_per_second <- py_div (float_of_int processed_files) elapsed_time ;;
    logger INFO (Search_progress processed_files (matches_found st) files_per_second) ;;;
    ret {| findings := findings st;
           processed_files := processed_files;
           matches_found := matches_found st;
           last_progress_time := current_time |}
  else
    ret {| findings := findings st;
           processed_files := processed_files;
           matches_found := matches_found st;
           last_progress_time := last_progress_time st |}.

Fixpoint for_each (body : locals -> string -> M locals) (yielded : list string)
    (st : locals) : M locals :=
  match yielded with
  | [] => ret st
  | file_path :: rest => st' <- body st file_path ;; for_each body rest st'
  end.

Definition search_filesystem (depth : nat) (fs : FS) (hashes : gset string)
    (partition_offset : option Z) : M (list Finding) :=
  last_progress_time <- time_time ;;
  let progress_interval := 1%Q in
  start_time <- time_time ;;
  logger INFO Starting_filesystem_search ;;;
  let walk := walk_fs depth fs "/" in
  st <- for_each (iteration fs hashes partition_offset progress_interval start_time)
         (fst walk)
         {| findings := []; processed_files := 0; matches_found := 0;
            last_progress_time := last_progress_time |} ;;
  match snd walk with
  | Some e => raise e
  | None =>
      now <- time_time ;;
      let total_time := fsub now start_time in
      avg_rate <- (if Qlt_bool 0 total_time
                   then py_div (float_of_int (processed_files st)) total_time
                   else ret 0%Q) ;;
      logger INFO (Search_completed (processed_files st) (matches_found st)
                     total_time avg_rate) ;;;
      ret (findings st)
  end.

(** ** [search_image_for_hashes] *)

(** [for partition in volume]. Every exception of the body is caught in
    the body, so the list is extended by whole partitions only. *)
Fixpoint for_each_partition (depth : nat) (img : Img) (volume : Volume)
    (hashes : gset string) (remaining : list Partition) (all_findings : list Finding)
    : M (list Finding) :=
  match remaining with
  | [] => ret all_findings
  | partition :: rest =>
      logger INFO (Searching_partition (start partition)) ;;;
      all_findings <-
        try_except
          (fs <- lift (FS_Info img (start partition * block_size volume)%Z) ;;
           partition_findings <- search_filesystem depth fs hashes (Some (start partition)) ;;
           ret (all_findings ++ partition_findings)%list)
          (fun e =>
             logger ERROR (Could_not_access_filesystem (start partition) e) ;;;
             ret all_findings) ;;
      for_each_partition depth img volume hashes rest all_findings
  end.

Definition search_image_for_hashes (depth : nat) (pytsk3 : Pytsk3)
    (image_path : string) (hashes : gset string) : M (list Finding) :=
  let all_findings : list Finding := [] in
  try_except
    (img <- lift (Img_Info pytsk3 image_path) ;;
     try_except
       (volume <- lift (Volume_Info img) ;;
        for_each_partition depth img volume hashes (partitions volume) all_findings)
       (fun _ =>
          logger INFO No_partition_table ;;;
          fs <- lift (FS_Info img 0) ;;
          partition_findings <- search_filesystem depth fs hashes None ;;
          ret (all_findings ++ partition_findings)%list))
    (fun e =>
       logger ERROR (Error_opening_image image_path e) ;;;
       ret all_findings).

(** ** What the engine does with one file

    The steps of [try_body] as functions of the filesystem alone: they
    state what is read, what is hashed and which Finding is built. *)

Definition declared_size (file_obj : File) : Z :=
  match file_meta file_obj with Some meta => meta_size meta | None => 0%Z end.

Definition time_of (field : option Z) : res (option datetime) :=
  match field with
  | Some t =>
      if (t =? 0)%Z then Ok None
      else match fromtimestamp t with Ok d => Ok (Some d) | Raise e => Raise e end
  | None => Ok None
  end.

Definition times_of (file_obj : File)
    : res (option datetime * option datetime * option datetime) :=
  match file_meta file_obj with
  | None => Ok (None, None, None)
  | Some meta =>
      match time_of (meta_crtime meta) with
      | Raise e => Raise e
      | Ok c =>
          match time_of (meta_mtime meta) with
          | Raise e => Raise e
          | Ok m =>
              match time_of (meta_atime meta) with
              | Raise e => Raise e
              | Ok a => Ok (c, m, a)
              end
          end
      end
  end.

(** The bytes that are hashed: those of [file_obj.read_random(0, size)] when
    [size] is not zero, none otherwise. *)
Definition content_read (file_obj : File) : res bytes :=
  if (declared_size file_obj =? 0)%Z then Ok []
  else read_random file_obj 0 (declared_size file_obj).

(** A file is examined when it is opened, its timestamps are converted and
    its content is read, in this order. *)
Definition examined (fs : FS) (path : string)
    : res (File * (option datetime * option datetime * option datetime) * bytes) :=
  match open fs path with
  | Raise e => Raise e
  | Ok file_obj =>
      match times_of file_obj with
      | Raise e => Raise e
      | Ok times =>
          match content_read file_obj with
          | Raise e => Raise e
          | Ok data => Ok (file_obj, times, data)
          end
      end
  end.

Definition name_of_path (path : string) : string :=
  if contains_slash path then List.last (split_slash path) path else path.

(** The Finding of a yielded path, if it has one. *)
Definition finding_of (fs : FS) (hashes : gset string) (partition_offset : option Z)
    (path : string) : option Finding :=
  match examined fs path with
  | Ok (file_obj, (c, m, a), data) =>
      if bool_decide (sha256_hexdigest data ∈ hashes) then
        Some {| hash_value := sha256_hexdigest data;
                file_path := path;
                file_size := declared_size file_obj;
                file_name := name_of_path path;
                partition_offset := partition_offset;
                created_time := c;
                modified_time := m;
                accessed_time := a |}
      else None
  | Raise _ => None
  end.

(** The calls made for a yielded path: one [open], then at most one
    [read_random] and at most one [sha256]. *)
Definition calls_of (fs : FS) (path : string) : list event :=
  Call_open path ::
  match open fs path with
  | Raise _ => []
  | Ok file_obj =>
      match times_of file_obj with
      | Raise _ => []
      | Ok _ =>
          ((if (declared_size file_obj =? 0)%Z then []
            else [Call_read_random path 0 (declared_size file_obj)])
           ++ match content_read file_obj with
              | Ok data => [Call_sha256 data]
              | Raise _ => []
              end)%list
      end
  end.

Definition is_call (ev : event) : bool :=
  match ev with Log _ _ => false | _ => true end.

(** The calls of a trace, without the log. *)
Definition calls (t : list event) : list event := List.filter is_call t.

Definition is_open_of (path : string) (ev : event) : bool :=
  match ev with Call_open p => String.eqb p path | _ => false end.

Definition is_read_of (path : string) (ev : event) : bool :=
  match ev with Call_read_random p _ _ => String.eqb p path | _ => false end.

Definition is_hash (ev : event) : bool :=
  match ev with Call_sha256 _ => true | _ => false end.

Definition count (f : event -> bool) (t : list event) : nat :=
  length (List.filter f t).

(** How many times a path is yielded. *)
Definition occurrences (path : string) (yielded : list string) : nat :=
  length (List.filter (fun p => String.eqb p path) yielded).

(** The locals after a file that has the Finding [o], or none. *)
Definition with_finding (o : option Finding) (st : locals) : locals :=
  match o with
  | Some finding =>
      {| findings := (findings st ++ [finding])%list;
         processed_files := processed_files st;
         matches_found := matches_found st + 1;
         last_progress_time := last_progress_time st |}
  | None => st
  end.

(** The locals after one iteration that does not raise, [now] being the
    reading of the clock in that iteration. *)
Definition next_locals (fs : FS) (hashes : gset string) (partition_offset : option Z)
    (progress_interval : Q) (st : locals) (path : string) (now : Q) : locals :=
  let st1 := with_finding (finding_of fs hashes partition_offset path) st in
  {| findings := findings st1;
     processed_files := processed_files st + 1;
     matches_found := matches_found st1;
     last_progress_time :=
       if Qle_bool progress_interval (fsub now (last_progress_time st))
       then now else last_progress_time st |}.

(** The periodic report runs and its divisor is zero. *)
Definition report_fails (progress_interval start_time : Q) (st : locals) (now : Q) : bool :=
  Qle_bool progress_interval (fsub now (last_progress_time st))
  && Qeq_bool (fsub now start_time) 0.

(** The clock has left [start_time], its second reading from [w], at
    every later reading: the elapsed time of a periodic report is then
    never zero. *)
Definition advances (w : World) : Prop :=
  forall n, (S (reads w) < n)%nat -> ~ (clock w n == clock w (S (reads w)))%Q.

(** No two readings of the clock are equal. *)
Definition never_repeats (w : World) : Prop :=
  forall n m, (n < m)%nat -> ~ (clock w m == clock w n)%Q.

(** [f] is the Finding of a path that the walk of [fs] yields. *)
Definition found_in (depth : nat) (fs : FS) (hashes : gset string)
    (partition_offset : option Z) (f : Finding) : Prop :=
  exists path, path ∈ fst (walk_fs depth fs "/")
               /\ finding_of fs hashes partition_offset path = Some f.

(** The strings that [hexdigest] of SHA-256 can print. *)
Definition is_lower_hex (c : ascii) : bool :=
  existsb (Ascii.eqb c) (list_ascii_of_string "0123456789abcdef").

Definition is_sha256_hex (s : string) : bool :=
  (String.length s =? 64)%nat && forallb is_lower_hex (list_ascii_of_string s).

(** What a computation returns, the empty list when it raises. *)
Definition returned (r : res (list Finding) * World) : list Finding :=
  match fst r with Ok l => l | Raise _ => [] end.

(** The components of a path, and the names that the walk keeps. *)
Definition kept_name (name : string) : Prop := filtered_name name = false.

Definition clean_path (path : string) : Prop :=
  Forall kept_name (split_slash path).

(** No entry of the filesystem has a separator in its name. *)
Definition separator_free (fs : FS) : Prop :=
  forall path directory entry info name,
    open_dir fs path = Ok directory -> entry ∈ directory ->
    entry_info entry = Some info -> info_name info = Some name ->
    contains_slash name = false.

(** ** Filesystems and images for the scenarios *)

(** A directory tree, and the filesystem that resolves paths in it the way
    the library does: a path is cut at its separators and its empty
    components are dropped. Every directory lists [.] and [..] first. *)
#[warnings="-register-all"]
Inductive node : Type :=
| Regular (name : string) (content : bytes)
| Folder (name : string) (children : list node).

Definition node_name (n : node) : string :=
  match n with Regular name _ => name | Folder name _ => name end.

Definition nonempty (s : string) : bool :=
  match s with EmptyString => false | _ => true end.

Definition tokens (path : string) : list string :=
  List.filter nonempty (split_slash path).

Fixpoint child (name : string) (children : list node) : option node :=
  match children with
  | [] => None
  | c :: rest => if String.eqb (node_name c) name then Some c else child name rest
  end.

Fixpoint resolve (n : node) (toks : list string) : option node :=
  match toks with
  | [] => Some n
  | t :: rest =>
      match n with
      | Folder _ children =>
          match child t children with
          | Some c => resolve c rest
          | None => None
          end
      | Regular _ _ => None
      end
  end.

Definition meta_of (n : node) : Meta :=
  match n with
  | Regular _ content =>
      {| meta_type_of := TSK_FS_META_TYPE_REG; meta_size := Z.of_nat (length content);
         meta_crtime := Some 0%Z; meta_mtime := Some 0%Z; meta_atime := Some 0%Z |}
  | Folder _ _ =>
      {| meta_type_of := TSK_FS_META_TYPE_DIR; meta_size := 0;
         meta_crtime := Some 0%Z; meta_mtime := Some 0%Z; meta_atime := Some 0%Z |}
  end.

Definition named_entry (name : string) (meta : option Meta) : Entry :=
  {| entry_info := Some {| info_name := Some name; info_meta := meta |} |}.

Definition entry_of (n : node) : Entry := named_entry (node_name n) (Some (meta_of n)).

Definition dot_entries : list Entry :=
  [ named_entry "." (Some (meta_of (Folder "." [])));
    named_entry ".." (Some (meta_of (Folder ".." []))) ].

Definition file_of (n : node) : File :=
  {| file_meta := Some (meta_of n);
     read_random := fun offset len =>
       match n with
       | Regular _ content =>
           Ok (List.firstn (Z.to_nat len) (List.skipn (Z.to_nat offset) content))
       | Folder _ _ => Raise IOError
       end |}.

Definition tree_fs (root : node) : FS :=
  {| open_dir := fun path =>
       match resolve root (tokens path) with
       | Some (Folder _ children) => Ok (dot_entries ++ List.map entry_of children)%list
       | _ => Raise IOError
       end;
     open := fun path =>
       match resolve root (tokens path) with
       | Some n => Ok (file_of n)
       | None => Raise IOError
       end |}.

(** An image without a partition table that holds one filesystem. *)
Definition unpartitioned (fs : FS) : Img :=
  {| Volume_Info := Raise IOError;
     FS_Info := fun offset => if (offset =? 0)%Z then Ok fs else Raise IOError |}.

(** A library that knows one image. *)
Definition library (image_path : string) (img : Img) : Pytsk3 :=
  {| Img_Info := fun p => if String.eqb p image_path then Ok img else Raise IOError |}.

(** A clock that advances by 1/1024 second at each reading; its first
    2 ^ 53 readings are floats. *)
Definition world0 : World :=
  {| clock := fun n => (Z.of_nat n # 1024)%Q; reads := 0; trace := [] |}.

(** The frames that Python's default recursion limit of 1000 leaves to
    [walk_fs] when [search_image_for_hashes] is called from the top level
    of a script: the script, [search_image_for_hashes], [search_filesystem]
    and the call of the library in the deepest generator hold the others
    (CPython 3.11). A caller deeper in the stack leaves fewer. *)
Definition recursion_limit : nat := 996.

(** The scenario of the two files [/a.txt] and [/dir/b.txt]. *)
Definition two_files : node :=
  Folder EmptyString [ Regular "a.txt" (bytes_of_string "alpha");
              Folder "dir" [ Regular "b.txt" (bytes_of_string "beta") ] ].

Definition h1 : string := sha256_hexdigest (bytes_of_string "alpha").
Definition h2 : string := sha256_hexdigest (bytes_of_string "beta").

Definition image_of_two_files : Pytsk3 :=
  library "disk.img" (unpartitioned (tree_fs two_files)).

(** A filesystem whose root lists one entry, and whose files are all [file]. *)
Definition regular_meta : Meta :=
  {| meta_type_of := TSK_FS_META_TYPE_REG; meta_size := 0;
     meta_crtime := None; meta_mtime := None; meta_atime := None |}.

Definition empty_file (meta : option Meta) : File :=
  {| file_meta := meta; read_random := fun _ _ => Raise IOError |}.

Definition one_entry_fs (entry : Entry) (file : res File) : FS :=
  {| open_dir := fun path => if String.eqb path "/" then Ok [entry] else Raise IOError;
     open := fun _ => file |}.

(** The digest of the empty content. *)
Definition empty_hash : string := sha256_hexdigest [].

(** An entry whose name holds a separator. *)
Definition slash_name_fs : FS :=
  one_entry_fs (named_entry "x/$y" (Some regular_meta)) (Ok (empty_file (Some regular_meta))).

(** A volume with the directory [$Extend], which holds the file [x]. *)
Definition extend_volume : node :=
  Folder EmptyString [ Folder "$Extend" [ Regular "x" (bytes_of_string "alpha") ] ].

(** An entry that has a name and no metadata, as a deleted file has. *)
Definition no_meta_fs : FS :=
  one_entry_fs (named_entry "x" None) (Ok (empty_file None)).

(** An entry named [x] for an empty file. *)
Definition plain_fs : FS :=
  one_entry_fs (named_entry "x" (Some regular_meta)) (Ok (empty_file (Some regular_meta))).

Definition finding_x : Finding :=
  {| hash_value := empty_hash; file_path := "//x"; file_size := 0; file_name := "x";
     partition_offset := None;
     created_time := None; modified_time := None; accessed_time := None |}.

(** An entry whose file cannot be opened. *)
Definition unopenable_fs : FS :=
  one_entry_fs (named_entry "x" (Some regular_meta)) (Raise IOError).

(** A root with a file, a directory and another file, where opening the
    directory fails with [e]. *)
Definition file_directory_file : node :=
  Folder EmptyString [ Regular "a.txt" (bytes_of_string "alpha");
                       Folder "dir" [];
                       Regular "c.txt" (bytes_of_string "beta") ].

Definition failing_subdirectory (e : exn) : FS :=
  {| open_dir := fun path =>
       if String.eqb path "/" then open_dir (tree_fs file_directory_file) path
       else Raise e;
     open := open (tree_fs file_directory_file) |}.

(** A clock that reads 0, then 1 for ever: one second passes between the
    first two readings and none afterwards. *)
Definition stalled_world : World :=
  {| clock := fun n => match n with O => 0%Q | S _ => 1%Q end; reads := 0; trace := [] |}.

(** A clock that reads 2 ^ -60, then 1 for ever: the first two readings
    are less than a second apart, and their difference rounds to 1.0. *)
Definition rounding_world : World :=
  {| clock := fun n => match n with O => (1 # 1152921504606846976)%Q | S _ => 1%Q end;
     reads := 0; trace := [] |}.

(** Two partitions at the blocks 0 and 2048, of 512 bytes each. *)
Definition first_volume : node := Folder EmptyString [ Regular "a.txt" (bytes_of_string "alpha") ].
Definition second_volume : node := Folder EmptyString [ Regular "b.txt" (bytes_of_string "beta") ].

Definition two_partitions : Img :=
  {| Volume_Info := Ok {| partitions := [ {| start := 0 |}; {| start := 2048 |} ];
                          block_size := 512 |};
     FS_Info := fun offset =>
       if (offset =? 0)%Z then Ok (tree_fs first_volume)
       else if (offset =? 1048576)%Z then Ok (tree_fs second_volume)
       else Raise IOError |}.

Definition finding_a (path : string) (tag : option Z) : Finding :=
  {| hash_value := h1; file_path := path; file_size := 5; file_name := "a.txt";
     partition_offset := tag;
     created_time := None; modified_time := None; accessed_time := None |}.

Definition finding_b (path : string) (tag : option Z) : Finding :=
  {| hash_value := h2; file_path := path; file_size := 4; file_name := "b.txt";
     partition_offset := tag;
     created_time := None; modified_time := None; accessed_time := None |}.

(** ** Further definitions: the shape of the paths *)

Definition starts_with_slash (s : string) : bool :=
  match s with
  | EmptyString => false
  | String c _ => is_slash c
  end.

Fixpoint ends_with_slash (s : string) : bool :=
  match s with
  | EmptyString => false
  | String c EmptyString => is_slash c
  | String _ rest => ends_with_slash rest
  end.

Fixpoint has_double_slash (s : string) : bool :=
  match s with
  | EmptyString => false
  | String c rest => (is_slash c && starts_with_slash rest) || has_double_slash rest
  end.

(** A name that is not empty, holds no separator and is kept by the walk. *)
Definition plain_name (name : string) : Prop :=
  name <> EmptyString /\ contains_slash name = false /\ filtered_name name = false.

(** Every entry that the filesystem lists and the walk keeps has a name
    that is not empty and holds no separator. *)
Definition plain_names (fs : FS) : Prop :=
  forall path directory entry info name,
    open_dir fs path = Ok directory -> entry ∈ directory ->
    entry_info entry = Some info -> info_name info = Some name ->
    filtered_name name = false ->
    name <> EmptyString /\ contains_slash name = false.

(** The path that the walk passes or yields for the entry reached from the
    root through the names [names]: the root itself, an entry of the root,
    or a deeper entry. *)
Definition path_of_names (names : list string) : string :=
  match names with
  | [] => "/"
  | [name] => String "/" (String "/" name)
  | _ => String "/" (String.concat "/" names)
  end.

(** The path that the walk takes for the entry [name] of [path]. *)
Definition entry_path (path name : string) : string :=
  "/" ++ replace_double_slash (join "/" [strip_slash path; name]).

(** The path of the first entry of the directory [path], when that entry
    is a subdirectory that the walk keeps. *)
Definition first_subdirectory (fs : FS) (path : string) : option string :=
  match open_dir fs path with
  | Ok (entry :: _) =>
      match entry_info entry with
      | Some info =>
          match info_name info with
          | Some name =>
              if negb (filtered_name name) && is_directory info
              then Some (entry_path path name) else None
          | None => None
          end
      | None => None
      end
  | _ => None
  end.

(** From [path] down, the first entry of each directory is a kept
    subdirectory, for [n] levels at least. *)
Fixpoint descends (fs : FS) (n : nat) (path : string) : bool :=
  match n with
  | O => true
  | S n' =>
      match first_subdirectory fs path with
      | Some subdirectory => descends fs n' subdirectory
      | None => false
      end
  end.

Definition directory_meta : Meta :=
  {| meta_type_of := TSK_FS_META_TYPE_DIR; meta_size := 0;
     meta_crtime := None; meta_mtime := None; meta_atime := None |}.

(** A root that holds the directory [loop], which lists itself: the
    directories are the paths made of that name, and no other path opens. *)
Definition loop_fs : FS :=
  {| open_dir := fun path =>
       if forallb (String.eqb "loop") (tokens path)
       then Ok [ named_entry "loop" (Some directory_meta) ]
       else Raise IOError;
     open := fun _ => Raise IOError |}.

(** A string that is not empty, neither starts nor ends with a separator
    and holds no doubled separator. *)
Definition tidy (s : string) : Prop :=
  s <> EmptyString /\ starts_with_slash s = false /\ ends_with_slash s = false
  /\ has_double_slash s = false.

(** A root with the directory [d], which holds the file [x]. *)
Definition nested_fs : FS :=
  {| open_dir := fun path =>
       if String.eqb path "/" then Ok [ named_entry "d" (Some directory_meta) ]
       else if String.eqb path "//d" then Ok [ named_entry "x" (Some regular_meta) ]
       else Raise IOError;
     open := fun _ => Ok (empty_file (Some regular_meta)) |}.

(** ** Further definitions: the trace of a scan *)

(** Everything that [try_body] and its handler append to the trace for a
    yielded path, in order. *)
Definition file_trace (fs : FS) (hashes : gset string) (path : string) : list event :=
  [Log DEBUG (Processing_file path); Call_open path]
  ++ match open fs path with
     | Raise e => [Log WARNING (Error_processing_file path e)]
     | Ok file_obj =>
         match times_of file_obj with
         | Raise e => [Log WARNING (Error_processing_file path e)]
         | Ok _ =>
             (if (declared_size file_obj =? 0)%Z then []
              else [Call_read_random path 0 (declared_size file_obj)])
             ++ match content_read file_obj with
                | Raise e => [Log WARNING (Error_processing_file path e)]
                | Ok data =>
                    Call_sha256 data
                    :: (if bool_decide (sha256_hexdigest data ∈ hashes)
                        then [Log INFO (Found_matching_file (sha256_hexdigest data) path)]
                        else [])
                end
         end
     end.

Definition is_progress_log (ev : event) : bool :=
  match ev with Log INFO (Search_progress _ _ _) => true | _ => false end.

Definition is_processing_log (ev : event) : bool :=
  match ev with Log DEBUG (Processing_file _) => true | _ => false end.

Definition is_match_log (ev : event) : bool :=
  match ev with Log INFO (Found_matching_file _ _) => true | _ => false end.

Definition is_warning_log (ev : event) : bool :=
  match ev with Log WARNING _ => true | _ => false end.

(** The file cannot be examined: opening it, converting its timestamps or
    reading it raises. *)
Definition fails_to_examine (fs : FS) (path : string) : bool :=
  match examined fs path with Raise _ => true | Ok _ => false end.

(** The timestamp that a Finding reports for a field of the metadata:
    none when the attribute is absent or zero. *)
Definition reported_time (field : option Z) : option datetime :=
  match field with
  | Some t => if (t =? 0)%Z then None else Some {| timestamp := t |}
  | None => None
  end.

Definition reported_times (file_obj : File)
    : option datetime * option datetime * option datetime :=
  match file_meta file_obj with
  | Some meta =>
      (reported_time (meta_crtime meta), reported_time (meta_mtime meta),
       reported_time (meta_atime meta))
  | None => (None, None, None)
  end.

(** A file whose creation time is beyond the year 9999. *)
Definition late_file : File :=
  {| file_meta := Some {| meta_type_of := TSK_FS_META_TYPE_REG; meta_size := 5;
                          meta_crtime := Some 999999999999%Z;
                          meta_mtime := None; meta_atime := None |};
     read_random := fun _ _ => Ok (bytes_of_string "alpha") |}.

Definition late_fs : FS :=
  one_entry_fs (named_entry "x" (Some regular_meta)) (Ok late_file).

Definition locals0 : locals :=
  {| findings := []; processed_files := 0; matches_found := 0; last_progress_time := 0 |}.

(** ** Further definitions: the search of an image *)

(** Two worlds with the same clock, read the same number of times. *)
Definition same_time (w1 w2 : World) : Prop :=
  clock w1 = clock w2 /\ reads w1 = reads w2.

(** The Findings whose digest is in [hashes]. *)
Definition matching (hashes : gset string) (l : list Finding) : list Finding :=
  List.filter (fun f => bool_decide (hash_value f ∈ hashes)) l.

Definition is_error_log (ev : event) : bool :=
  match ev with Log ERROR _ => true | _ => false end.

(** Three partitions, the second of which cannot be mounted. *)
Definition three_partitions : Img :=
  {| Volume_Info := Ok {| partitions := [ {| start := 0 |}; {| start := 1024 |};
                                          {| start := 2048 |} ];
                          block_size := 512 |};
     FS_Info := FS_Info two_partitions |}.

(** The Findings of a scan whose periodic report does not divide by zero:
    those of the yielded files when the walk ends normally, none when it
    fails. *)
Definition scan_findings (depth : nat) (fs : FS) (hashes : gset string)
    (tag : option Z) : list Finding :=
  match snd (walk_fs depth fs "/") with
  | None => omap (finding_of fs hashes tag) (fst (walk_fs depth fs "/"))
  | Some _ => []
  end.

Definition partition_findings (depth : nat) (img : Img) (volume : Volume)
    (hashes : gset string) (partition : Partition) : list Finding :=
  match FS_Info img (start partition * block_size volume) with
  | Ok fs => scan_findings depth fs hashes (Some (start partition))
  | Raise _ => []
  end.

Definition image_findings (depth : nat) (pytsk3 : Pytsk3) (image_path : string)
    (hashes : gset string) : list Finding :=
  match Img_Info pytsk3 image_path with
  | Raise _ => []
  | Ok img =>
      match Volume_Info img with
      | Ok volume => flat_map (partition_findings depth img volume hashes) (partitions volume)
      | Raise _ =>
          match FS_Info img 0 with
          | Ok fs => scan_findings depth fs hashes None
          | Raise _ => []
          end
      end
  end.

(** What the loop logs for a partition that cannot be mounted. *)
Definition mount_log (img : Img) (volume : Volume) (partition : Partition) : list event :=
  Log INFO (Searching_partition (start partition))
  :: match FS_Info img (start partition * block_size volume) with
     | Raise e => [Log ERROR (Could_not_access_filesystem (start partition) e)]
     | Ok _ => []
     end.

(** The image with another list of partitions in its table. *)
Definition with_partitions (img : Img) (volume : Volume) (l : list Partition) : Img :=
  {| Volume_Info := Ok {| partitions := l; block_size := block_size volume |};
     FS_Info := FS_Info img |}.

(** A partition table with one partition, and no filesystem anywhere. *)
Definition unformatted : Img :=
  {| Volume_Info := Ok {| partitions := [ {| start := 63 |} ]; block_size := 512 |};
     FS_Info := fun _ => Raise IOError |}.

(** An image without a partition table and without a filesystem. *)
Definition blank_image : Img :=
  {| Volume_Info := Raise IOError; FS_Info := fun _ => Raise IOError |}.

(** The Finding of the file [c.txt], whose content is that of [b.txt]. *)
Definition finding_c (path : string) (tag : option Z) : Finding :=
  {| hash_value := h2; file_path := path; file_size := 4; file_name := "c.txt";
     partition_offset := tag;
     created_time := None; modified_time := None; accessed_time := None |}.

(** A root that lists the empty file [x] twice. *)
Definition listed_twice_fs : FS :=
  {| open_dir := fun path =>
       if String.eqb path "/"
       then Ok [ named_entry "x" (Some regular_meta); named_entry "x" (Some regular_meta) ]
       else Raise IOError;
     open := fun _ => Ok (empty_file (Some regular_meta)) |}.

(** * Properties *)

(** ** SHA-256 on the test vectors of FIPS 180-4 *)

Example sha256_empty :
  sha256_hexdigest [] = "e3b0c44298fc1c149afbf4c8996fb92427ae41e4649b934ca495991b7852b855".
Proof. vm_compute. reflexivity. Qed.

Example sha256_abc :
  sha256_hexdigest (bytes_of_string "abc")
  = "ba7816bf8f01cfea414140de5dae2223b00361a396177a9cb410ff61f20015ad".
Proof. vm_compute. reflexivity. Qed.

Example sha256_two_blocks :
  sha256_hexdigest
    (bytes_of_string "abcdbcdecdefdefgefghfghighijhijkijkljklmklmnlmnomnopnopq")
  = "248d6a61d20638b8e5c026930c3e6039a33ce45964ff2167f6ecedd419db06c1".
Proof. vm_compute. reflexivity. Qed.

(** ** Floats *)

Lemma round_half_even_ge n d : (n / d <= round_half_even n d)%Z.
Proof.
  unfold round_half_even.
  destruct (2 * (n mod d) ?= d)%Z; [destruct (Z.even _)|..]; lia.
Qed.

(** The scaled fraction is at least one. *)
Lemma floor_log2_below n d :
  (0 < n)%Z -> (0 < d)%Z ->
  if (0 <=? floor_log2 n d)%Z then (d * 2 ^ floor_log2 n d <= n)%Z
  else (d <= n * 2 ^ (- floor_log2 n d))%Z.
Proof.
  intros Hn Hd. unfold floor_log2.
  pose proof (Z.log2_spec n Hn) as [Hn1 Hn2].
  pose proof (Z.log2_spec d Hd) as [Hd1 Hd2].
  pose proof (Z.log2_nonneg n) as Hln. pose proof (Z.log2_nonneg d) as Hld.
  set (ln := Z.log2 n) in *. set (ld := Z.log2 d) in *.
  destruct (0 <=? ln - ld)%Z eqn:Hk.
  - apply Z.leb_le in Hk.
    destruct (n <? d * 2 ^ (ln - ld))%Z eqn:Hlt.
    + destruct (0 <=? ln - ld - 1)%Z eqn:Hk1.
      * apply Z.leb_le in Hk1.
        assert (2 ^ ln = 2 ^ (Z.succ ld) * 2 ^ (ln - ld - 1))%Z as Hpow.
        { rewrite <- Z.pow_add_r by lia. f_equal. lia. }
        assert (0 < 2 ^ (ln - ld - 1))%Z by (apply Z.pow_pos_nonneg; lia).
        nia.
      * apply Z.leb_gt in Hk1. assert (ln - ld = 0)%Z as Heq by lia.
        replace (- (ln - ld - 1))%Z with 1%Z by lia.
        replace ln with ld in * by lia. rewrite Z.pow_succ_r in Hd2 by lia. lia.
    + apply Z.ltb_ge in Hlt. rewrite (proj2 (Z.leb_le _ _) Hk). lia.
  - apply Z.leb_gt in Hk.
    destruct (n * 2 ^ (- (ln - ld)) <? d)%Z eqn:Hlt.
    + assert ((0 <=? ln - ld - 1)%Z = false) as -> by (apply Z.leb_gt; lia).
      assert (2 ^ Z.succ ld = 2 ^ ln * 2 ^ (- (ln - ld - 1)))%Z as Hpow.
      { rewrite <- Z.pow_add_r by lia. f_equal. lia. }
      assert (0 < 2 ^ (- (ln - ld - 1)))%Z by (apply Z.pow_pos_nonneg; lia).
      nia.
    + apply Z.ltb_ge in Hlt. rewrite (proj2 (Z.leb_gt _ _) Hk). lia.
Qed.

Lemma fl_pos_positive n d : (0 < n)%Z -> (0 < d)%Z -> (0 < fl_pos n d)%Q.
Proof.
  intros Hn Hd. unfold fl_pos.
  pose proof (floor_log2_below n d Hn Hd) as Hk.
  set (k := floor_log2 n d) in *.
  destruct (0 <=? k - 52)%Z eqn:He.
  - apply Z.leb_le in He.
    assert ((0 <=? k)%Z = true) as Hk0 by (apply Z.leb_le; lia). rewrite Hk0 in Hk.
    assert (0 < 2 ^ (k - 52))%Z as Hpos by (apply Z.pow_pos_nonneg; lia).
    assert (2 ^ k = 2 ^ (k - 52) * 2 ^ 52)%Z as Hpow.
    { rewrite <- Z.pow_add_r by lia. f_equal. lia. }
    assert (0 < 2 ^ 52)%Z by (apply Z.pow_pos_nonneg; lia).
    pose proof (round_half_even_ge n (d * 2 ^ (k - 52))) as Hr.
    assert (1 <= n / (d * 2 ^ (k - 52)))%Z.
    { apply Z.div_le_lower_bound; nia. }
    unfold Qlt. cbn. nia.
  - apply Z.leb_gt in He.
    assert (0 < 2 ^ (- (k - 52)))%Z as Hpos by (apply Z.pow_pos_nonneg; lia).
    pose proof (round_half_even_ge (n * 2 ^ (- (k - 52))) d) as Hr.
    assert (1 <= n * 2 ^ (- (k - 52)) / d)%Z.
    { apply Z.div_le_lower_bound; [lia|].
      destruct (0 <=? k)%Z eqn:Hk0.
      - apply Z.leb_le in Hk0.
        assert (0 < 2 ^ k)%Z by (apply Z.pow_pos_nonneg; lia). nia.
      - apply Z.leb_gt in Hk0.
        assert (2 ^ (- (k - 52)) = 2 ^ (- k) * 2 ^ 52)%Z as Hpow.
        { rewrite <- Z.pow_add_r by lia. f_equal. lia. }
        assert (0 < 2 ^ 52)%Z by (apply Z.pow_pos_nonneg; lia).
        assert (0 < 2 ^ (- k))%Z by (apply Z.pow_pos_nonneg; lia). nia. }
    unfold Qlt. cbn. lia.
Qed.

(** Rounding gives zero for zero only. *)
Lemma fl_zero x : (fl x == 0)%Q <-> (x == 0)%Q.
Proof.
  pose proof (Qred_correct x) as Hred. unfold fl. cbv zeta.
  destruct (Qred x) as [n d]. rewrite <- Hred. clear Hred x. cbn [Qnum Qden].
  destruct n as [|p|p].
  - done.
  - pose proof (fl_pos_positive (Z.pos p) (Z.pos d) eq_refl eq_refl) as Hpos.
    split; intros H.
    + rewrite H in Hpos. by apply Qlt_irrefl in Hpos.
    + discriminate H.
  - pose proof (fl_pos_positive (- Z.neg p) (Z.pos d) eq_refl eq_refl) as Hpos.
    split; intros H.
    + apply (Qopp_comp _ _) in H. rewrite Qopp_involutive in H.
      rewrite H in Hpos. by apply Qlt_irrefl in Hpos.
    + discriminate H.
Qed.

Lemma fsub_zero a b : (fsub a b == 0)%Q <-> (a == b)%Q.
Proof. unfold fsub. rewrite fl_zero. split; intros H; lra. Qed.

(** Rounding does not depend on how the rational is written. *)
Lemma fl_proper x y : (x == y)%Q -> fl x = fl y.
Proof. intros H. unfold fl. by rewrite (Qred_complete x y H). Qed.

(** The rounding on numbers that Python rounds the same way: 0.1, the
    difference 1.0 - 2 ** -60, an integer beyond 53 bits at a tie, and the
    floats 1.0 and 0.5, which it leaves as they are. *)
Example fl_one_tenth :
  Qred (fl (1 # 10)) = (3602879701896397 # 36028797018963968)%Q.
Proof. vm_compute. reflexivity. Qed.

Example fl_just_below_one :
  Qred (fsub 1 (1 # 1152921504606846976)) = 1%Q.
Proof. vm_compute. reflexivity. Qed.

Example fl_beyond_53_bits :
  Qred (fl (inject_Z (2 ^ 53 + 1))) = inject_Z (2 ^ 53)
  /\ Qred (fl (inject_Z (2 ^ 53 + 3))) = inject_Z (2 ^ 53 + 4).
Proof. vm_compute. done. Qed.

Example fl_of_floats : Qred (fl 1) = 1%Q /\ Qred (fl (1 # 2)) = (1 # 2)%Q.
Proof. vm_compute. done. Qed.

Example fl_ties_to_even :
  Qred (fl (9007199254740993 # 9007199254740992)) = 1%Q
  /\ Qred (fl (9007199254740995 # 9007199254740992))
     = (2251799813685249 # 2251799813685248)%Q.
Proof. vm_compute. done. Qed.

Example fl_negative_small_large :
  Qred (fl (- (1 # 3))) = (- (6004799503160661 # 18014398509481984))%Q
  /\ Qred (fl (7 # 1000000000000000000000000000000))
     = (1248841731117715 # 178405961588244985132285746181186892047843328)%Q
  /\ Qred (fl (inject_Z 1000000000000000000000000000001))
     = inject_Z 1000000000000000019884624838656.
Proof. vm_compute. done. Qed.

(** ** Running the monad *)

Lemma extract_time_run field w : extract_time field w = (time_of field, w).
Proof.
  unfold extract_time, time_of. destruct field as [t|]; [|done].
  destruct (t =? 0)%Z; [done|].
  unfold bind, lift, ret. by destruct (fromtimestamp t).
Qed.

Lemma calls_app t1 t2 : calls (t1 ++ t2) = (calls t1 ++ calls t2)%list.
Proof. apply List.filter_app. Qed.

Ltac close_run :=
  cbn;
  repeat match goal with H : file_meta _ = _ |- _ => rewrite H end;
  cbn; eexists; split; [reflexivity|]; cbn;
  rewrite ?calls_app; cbn; rewrite ?app_nil_r, <- ?app_assoc.

Section One_file.
Variables (fs : FS) (hashes : gset string) (partition_offset : option Z).

Lemma try_body_run st path w :
  exists w',
    try_except (try_body fs hashes partition_offset st path)
      (fun e => logger WARNING (Error_processing_file path e) ;;; ret st) w
    = (Ok (with_finding (finding_of fs hashes partition_offset path) st), w')
    /\ clock w' = clock w /\ reads w' = reads w
    /\ calls (trace w') = (calls (trace w) ++ calls_of fs path)%list.
Proof.
  unfold try_except, try_body, finding_of, examined, calls_of, times_of, content_read,
    declared_size, name_of_path, logger, bind, lift, emit, ret.
  destruct (open fs path) as [file_obj|e] eqn:Ho; cbn; [|by close_run].
  destruct (file_meta file_obj) as [meta|] eqn:Hm; cbn; rewrite ?Hm; cbn;
    rewrite ?extract_time_run.
  2: { destruct (bool_decide _); by close_run. }
  destruct (time_of (meta_crtime meta)) as [c|e]; cbn; rewrite ?Hm; cbn;
    rewrite ?extract_time_run; [|by close_run].
  destruct (time_of (meta_mtime meta)) as [m|e]; cbn; rewrite ?Hm; cbn;
    rewrite ?extract_time_run; [|by close_run].
  destruct (time_of (meta_atime meta)) as [a|e]; cbn; rewrite ?Hm; cbn; [|by close_run].
  destruct (meta_size meta =? 0)%Z; cbn.
  - destruct (bool_decide _); by close_run.
  - destruct (read_random file_obj 0 (meta_size meta)) as [data|e]; cbn; [|by close_run].
    destruct (bool_decide _); by close_run.
Qed.

End One_file.

Section Scan.
Variables (fs : FS) (hashes : gset string) (partition_offset : option Z).
Variables (progress_interval start_time : Q).

Lemma with_finding_last o st :
  last_progress_time (with_finding o st) = last_progress_time st.
Proof. by destruct o. Qed.

Lemma with_finding_processed o st :
  processed_files (with_finding o st) = processed_files st.
Proof. by destruct o. Qed.

Lemma with_finding_findings o st :
  findings (with_finding o st) = (findings st ++ option_list o)%list.
Proof. destruct o; cbn; [done|]. by rewrite app_nil_r. Qed.

Lemma iteration_run st path w :
  exists w',
    iteration fs hashes partition_offset progress_interval start_time st path w
    = (if report_fails progress_interval start_time st (clock w (reads w)) then Raise ZeroDivisionError
       else Ok (next_locals fs hashes partition_offset progress_interval st path
                   (clock w (reads w))), w')
    /\ clock w' = clock w /\ reads w' = S (reads w)
    /\ calls (trace w') = (calls (trace w) ++ calls_of fs path)%list.
Proof.
  destruct (try_body_run fs hashes partition_offset st path w)
    as (w1 & Hrun & Hclock & Hreads & Hcalls).
  unfold calls in *. unfold iteration, bind at 1. rewrite Hrun.
  unfold bind at 1, time_time at 1. rewrite Hclock, Hreads.
  unfold report_fails, next_locals.
  rewrite with_finding_last, with_finding_processed.
  destruct (Qle_bool _ _); cbn.
  - unfold py_div, bind, raise, ret, logger, emit.
    destruct (Qeq_bool _ _); cbn.
    + eexists; split; [reflexivity|]. cbn. by rewrite Hcalls.
    + eexists; split; [reflexivity|]. cbn. rewrite List.filter_app, Hcalls. cbn.
      by rewrite app_nil_r.
  - eexists; split; [reflexivity|]. cbn. by rewrite Hcalls.
Qed.

(** Whenever the loop ends without raising, it has recorded the Finding
    of each yielded path, in order, and made the calls of each. *)
Lemma for_each_returns yielded : forall st w st' w',
  for_each (iteration fs hashes partition_offset progress_interval start_time)
    yielded st w = (Ok st', w') ->
  findings st' = (findings st ++ omap (finding_of fs hashes partition_offset) yielded)%list
  /\ processed_files st' = (processed_files st + Z.of_nat (length yielded))%Z
  /\ clock w' = clock w
  /\ reads w' = (reads w + length yielded)%nat
  /\ calls (trace w') = (calls (trace w) ++ flat_map (calls_of fs) yielded)%list.
Proof.
  induction yielded as [|path rest IH]; intros st w st' w' Hrun; cbn in Hrun.
  - unfold ret in Hrun. simplify_eq. cbn. rewrite !app_nil_r.
    repeat split; lia.
  - destruct (iteration_run st path w) as (w1 & Hit & Hclock & Hreads & Hcalls).
    unfold bind in Hrun. rewrite Hit in Hrun.
    destruct (report_fails _ _ _ _); [done|].
    apply IH in Hrun as (Hf & Hp & Hc & Hr & Ht).
    rewrite Hf, Hp, Hc, Hr, Ht, Hclock, Hreads, Hcalls. cbn [next_locals findings processed_files].
    rewrite with_finding_findings. cbn [omap list_omap flat_map length].
    repeat split; try lia.
    + rewrite <- app_assoc. f_equal. by destruct (finding_of _ _ _ _).
    + by rewrite <- app_assoc.
Qed.

(** The loop does not raise when every reading of the clock that it makes
    differs from [start_time]: the elapsed time of a report is then not
    zero. *)
Lemma for_each_benign yielded : forall st w,
  (forall n, (reads w <= n)%nat -> ~ (clock w n == start_time)%Q) ->
  exists st' w',
    for_each (iteration fs hashes partition_offset progress_interval start_time)
      yielded st w = (Ok st', w').
Proof.
  induction yielded as [|path rest IH]; intros st w Hclock; cbn.
  - by eexists _, _.
  - destruct (iteration_run st path w) as (w1 & Hit & Hc1 & Hr1 & _).
    unfold bind. rewrite Hit.
    assert (report_fails progress_interval start_time st (clock w (reads w)) = false) as ->.
    { unfold report_fails. apply andb_false_iff. right.
      apply not_true_iff_false. intros Heq%Qeq_bool_iff.
      apply (Hclock (reads w)); [lia|]. by apply (proj1 (fsub_zero _ _)). }
    apply IH. intros n Hn. rewrite Hc1. apply Hclock. lia.
Qed.

End Scan.

(** ** [search_filesystem] as a whole *)

(** The final report never divides by zero: the division is guarded. *)
Lemma final_rate_run (n total : Q) w :
  (if Qlt_bool 0 total then py_div n total else ret 0%Q) w
  = (Ok (if Qlt_bool 0 total then fl (n / total) else 0%Q), w).
Proof.
  unfold Qlt_bool, py_div. destruct (Qle_bool total 0) eqn:Hle; cbn; [done|].
  destruct (Qeq_bool total 0) eqn:Heq; [|done].
  apply Qeq_bool_iff in Heq. apply not_true_iff_false in Hle.
  exfalso. apply Hle, Qle_bool_iff. lra.
Qed.

Lemma search_filesystem_returns depth fs hashes partition_offset w l w' :
  search_filesystem depth fs hashes partition_offset w = (Ok l, w') ->
  snd (walk_fs depth fs "/") = None
  /\ l = omap (finding_of fs hashes partition_offset) (fst (walk_fs depth fs "/"))
  /\ calls (trace w')
     = (calls (trace w) ++ flat_map (calls_of fs) (fst (walk_fs depth fs "/")))%list.
Proof.
  unfold search_filesystem.
  unfold bind at 1, time_time at 1. unfold bind at 1, time_time at 1.
  unfold bind at 1, logger at 1, emit at 1. cbn [clock reads trace].
  unfold bind at 1.
  destruct (for_each _ _ _ _) as [[st|e] w1] eqn:Hloop; [|done].
  apply for_each_returns in Hloop as (Hf & _ & _ & _ & Hcalls).
  cbn in Hf, Hcalls.
  destruct (snd (walk_fs depth fs "/")) as [e|]; [done|].
  unfold bind at 1, time_time at 1. unfold bind at 1.
  rewrite final_rate_run. unfold bind, logger, emit, ret. intros [= <- <-].
  split; [done|]. split; [done|]. cbn.
  rewrite calls_app, Hcalls, calls_app. cbn. by rewrite !app_nil_r.
Qed.

Lemma search_filesystem_benign depth fs hashes partition_offset w yielded :
  walk_fs depth fs "/" = (yielded, None) ->
  advances w ->
  exists w',
    search_filesystem depth fs hashes partition_offset w
    = (Ok (omap (finding_of fs hashes partition_offset) yielded), w')
    /\ calls (trace w') = (calls (trace w) ++ flat_map (calls_of fs) yielded)%list.
Proof.
  intros Hwalk Hclock.
  destruct (search_filesystem depth fs hashes partition_offset w) as [r w'] eqn:Hrun.
  assert (exists l, r = Ok l) as [l ->].
  { revert Hrun. unfold search_filesystem.
    unfold bind at 1, time_time at 1. unfold bind at 1, time_time at 1.
    unfold bind at 1, logger at 1, emit at 1. cbn [clock reads trace].
    unfold bind at 1. rewrite Hwalk. cbn [fst snd].
    edestruct (for_each_benign fs hashes partition_offset 1 (clock w (S (reads w)))
                 yielded) as (st & w1 & ->).
    { cbn [clock reads]. intros n Hn. apply Hclock. lia. }
    unfold bind at 1, time_time at 1. unfold bind at 1.
    rewrite final_rate_run. unfold bind, logger, emit, ret. intros [= <- <-]. eauto. }
  apply search_filesystem_returns in Hrun as (_ & -> & Hcalls).
  rewrite Hwalk in Hcalls |- *. eauto.
Qed.

(** The clock of [world0] advances at each reading. *)
Lemma world0_never_repeats : never_repeats world0.
Proof. intros n m Hnm. cbn. unfold Qeq. cbn. lia. Qed.

Lemma never_repeats_advances w : never_repeats w -> advances w.
Proof. intros Hw n Hn. by apply Hw. Qed.

Lemma world0_advances : advances world0.
Proof. apply never_repeats_advances, world0_never_repeats. Qed.

(** ** Where a Finding comes from *)

Lemma finding_of_Some fs hashes partition_offset path f :
  finding_of fs hashes partition_offset path = Some f ->
  exists file_obj c m a data,
    examined fs path = Ok (file_obj, (c, m, a), data)
    /\ sha256_hexdigest data ∈ hashes
    /\ f = {| hash_value := sha256_hexdigest data;
              file_path := path;
              file_size := declared_size file_obj;
              file_name := name_of_path path;
              partition_offset := partition_offset;
              created_time := c;
              modified_time := m;
              accessed_time := a |}.
Proof.
  unfold finding_of. destruct (examined fs path) as [[[file_obj [[c m] a]] data]|e]; [|done].
  case_bool_decide; [|done]. intros [= <-]. by eexists _, _, _, _, _.
Qed.

Lemma examined_Ok fs path file_obj times data :
  examined fs path = Ok (file_obj, times, data) ->
  open fs path = Ok file_obj /\ times_of file_obj = Ok times
  /\ content_read file_obj = Ok data.
Proof.
  unfold examined. destruct (open fs path) as [fo|]; [|done].
  destruct (times_of fo) as [ts|] eqn:Ht; [|done].
  destruct (content_read fo) as [d|] eqn:Hd; [|done].
  intros H. by simplify_eq.
Qed.

Lemma search_filesystem_found depth fs hashes partition_offset w f :
  f ∈ returned (search_filesystem depth fs hashes partition_offset w) ->
  found_in depth fs hashes partition_offset f.
Proof.
  unfold returned.
  destruct (search_filesystem depth fs hashes partition_offset w) as [[l|e] w'] eqn:Hrun;
    cbn; [|by intros ?%elem_of_nil].
  apply search_filesystem_returns in Hrun as (_ & -> & _).
  intros (path & Hin & Hf)%list_elem_of_omap. by exists path.
Qed.

(** The loop over the partitions never raises, and what it adds comes
    from the filesystems mounted at [start * block_size], tagged [start]. *)
Lemma for_each_partition_run depth img volume hashes remaining :
  forall all_findings w,
  exists added w',
    for_each_partition depth img volume hashes remaining all_findings w
    = (Ok (all_findings ++ added)%list, w')
    /\ forall f, f ∈ added ->
       exists partition fs,
         partition ∈ remaining
         /\ FS_Info img (start partition * block_size volume) = Ok fs
         /\ found_in depth fs hashes (Some (start partition)) f.
Proof.
  induction remaining as [|partition rest IH]; intros all_findings w; cbn.
  - exists [], w. rewrite app_nil_r. split; [done|]. by intros f ?%elem_of_nil.
  - unfold bind at 1, logger at 1, emit at 1. unfold bind at 1, try_except at 1.
    unfold bind at 1, lift at 1.
    destruct (FS_Info img (start partition * block_size volume)) as [fs|e] eqn:Hfs.
    + unfold bind at 1.
      match goal with |- context [search_filesystem ?d ?f ?h ?p ?w0] =>
        pose proof (search_filesystem_found d f h p w0) as Hfound;
        unfold returned in Hfound;
        destruct (search_filesystem d f h p w0) as [[l|e] w1] end; cbn in Hfound.
      * unfold ret at 1.
        destruct (IH (all_findings ++ l)%list w1) as (added & w' & -> & Hadded).
        exists (l ++ added)%list, w'. rewrite app_assoc. split; [done|].
        intros f [Hf|Hf]%elem_of_app.
        -- exists partition, fs. split; [left|]. by split; [|apply Hfound].
        -- destruct (Hadded f Hf) as (p & fs' & ? & ? & ?).
           exists p, fs'. split; [by right|done].
      * unfold ret at 1.
        match goal with |- context [for_each_partition _ _ _ _ _ _ ?w0] =>
          destruct (IH all_findings w0) as (added & w' & -> & Hadded) end.
        exists added, w'. split; [done|].
        intros f Hf. destruct (Hadded f Hf) as (p & fs' & ? & ? & ?).
        exists p, fs'. split; [by right|done].
    + unfold bind, logger, emit, ret; cbn.
      match goal with |- context [for_each_partition _ _ _ _ _ _ ?w0] =>
        destruct (IH all_findings w0) as (added & w' & -> & Hadded) end.
      exists added, w'. split; [done|].
      intros f Hf. destruct (Hadded f Hf) as (p & fs' & ? & ? & ?).
      exists p, fs'. split; [by right|done].
Qed.

(** The search always returns, and each Finding comes from a filesystem
    of the image: the one at offset 0 without tag when the partition table
    cannot be read, the one of a partition with its start as tag otherwise. *)
Lemma search_image_run depth pytsk3 image_path hashes w :
  exists l w',
    search_image_for_hashes depth pytsk3 image_path hashes w = (Ok l, w')
    /\ forall f, f ∈ l ->
       exists img offset fs,
         Img_Info pytsk3 image_path = Ok img
         /\ FS_Info img offset = Ok fs
         /\ found_in depth fs hashes (partition_offset f) f
         /\ ((exists e, Volume_Info img = Raise e)
               /\ offset = 0%Z /\ partition_offset f = None
             \/ exists volume partition,
                  Volume_Info img = Ok volume /\ partition ∈ partitions volume
                  /\ offset = (start partition * block_size volume)%Z
                  /\ partition_offset f = Some (start partition)).
Proof.
  unfold search_image_for_hashes, try_except at 1, bind at 1, lift at 1.
  destruct (Img_Info pytsk3 image_path) as [img|e] eqn:Himg.
  2: { unfold bind, logger, emit, ret. eexists _, _. split; [done|].
       by intros f ?%elem_of_nil. }
  unfold try_except at 1, bind at 1, lift at 1.
  destruct (Volume_Info img) as [volume|e] eqn:Hvol.
  - destruct (for_each_partition_run depth img volume hashes (partitions volume) [] w)
      as (added & w' & -> & Hadded).
    exists added, w'. split; [done|]. intros f Hf.
    destruct (Hadded f Hf) as (partition & fs & Hin & Hfs & path & Hpath & Hfind).
    pose proof Hfind as (? & ? & ? & ? & ? & _ & _ & ->)%finding_of_Some. cbn.
    exists img, (start partition * block_size volume)%Z, fs.
    split; [done|]. split; [done|]. split; [by exists path|].
    right. by exists volume, partition.
  - unfold bind at 1, logger at 1, emit at 1. unfold bind at 1, lift at 1.
    destruct (FS_Info img 0) as [fs|e'] eqn:Hfs.
    2: { unfold bind, logger, emit, ret. eexists _, _. split; [done|].
         by intros f ?%elem_of_nil. }
    unfold bind at 1.
    match goal with |- context [search_filesystem ?d ?f ?h ?p ?w0] =>
      pose proof (search_filesystem_found d f h p w0) as Hfound;
      unfold returned in Hfound;
      destruct (search_filesystem d f h p w0) as [[l|e'] w1] end; cbn in Hfound.
    2: { unfold bind, logger, emit, ret. eexists _, _. split; [done|].
         by intros f ?%elem_of_nil. }
    unfold ret. cbn. exists l, w1. split; [done|]. intros f Hf.
    destruct (Hfound f Hf) as (path & Hpath & Hfind).
    pose proof Hfind as (? & ? & ? & ? & ? & _ & _ & ->)%finding_of_Some. cbn.
    exists img, 0%Z, fs. split; [done|]. split; [done|]. split; [by exists path|].
    left. eauto.
Qed.

(** The terminal state is always reached: the search returns a list. *)
Corollary search_image_for_hashes_returns depth pytsk3 image_path hashes w :
  exists l w', search_image_for_hashes depth pytsk3 image_path hashes w = (Ok l, w').
Proof.
  destruct (search_image_run depth pytsk3 image_path hashes w) as (l & w' & Hrun & _).
  by exists l, w'.
Qed.

(** ** Paths and their components *)

(** The string methods on values computed by Python. *)
Example strip_slash_both_ends : strip_slash "//a/b//" = "a/b".
Proof. reflexivity. Qed.

Example replace_does_not_overlap :
  replace_double_slash "a//b///c" = "a/b//c" /\ replace_double_slash "////" = "//".
Proof. split; reflexivity. Qed.

Example split_slash_keeps_empty_components :
  split_slash "//a.txt" = [EmptyString; EmptyString; "a.txt"]
  /\ split_slash EmptyString = [EmptyString].
Proof. split; reflexivity. Qed.

Example path_of_root_entry :
  "/" ++ replace_double_slash (join "/" [strip_slash "/"; "a.txt"]) = "//a.txt".
Proof. reflexivity. Qed.

Example path_of_nested_entry :
  "/" ++ replace_double_slash (join "/" [strip_slash "//dir"; "b.txt"]) = "/dir/b.txt".
Proof. reflexivity. Qed.

Lemma is_slash_eq c : is_slash c = true -> c = "/"%char.
Proof. apply Ascii.eqb_eq. Qed.

Lemma split_slash_cons s : exists first others, split_slash s = first :: others.
Proof.
  destruct s as [|c rest]; cbn; [by eexists _, _|].
  destruct (is_slash c); [by eexists _, _|].
  destruct (split_slash rest); by eexists _, _.
Qed.

Lemma append_cons c (a b : string) : String c a ++ b = String c (a ++ b).
Proof. reflexivity. Qed.

Lemma append_empty (b : string) : EmptyString ++ b = b.
Proof. reflexivity. Qed.

Lemma split_slash_app a b :
  split_slash (a ++ String "/" b) = (split_slash a ++ split_slash b)%list.
Proof.
  induction a as [|c a IH]; [done|].
  rewrite append_cons. cbn.
  destruct (is_slash c); [by rewrite IH|].
  rewrite IH. by destruct (split_slash_cons a) as (first & others & ->).
Qed.

Lemma split_slash_name s : contains_slash s = false -> split_slash s = [s].
Proof.
  induction s as [|c s IH]; cbn; [done|].
  intros [-> Hs]%orb_false_iff. by rewrite IH.
Qed.

Lemma kept_empty : kept_name EmptyString.
Proof. reflexivity. Qed.

Lemma clean_path_slash s : clean_path s -> clean_path (String "/" s).
Proof. intros Hs. unfold clean_path. cbn. constructor; [apply kept_empty|done]. Qed.

Lemma clean_path_app a b :
  clean_path a -> clean_path b -> clean_path (a ++ String "/" b).
Proof. unfold clean_path. rewrite split_slash_app. apply Forall_app_2. Qed.

Lemma clean_path_app_l a b : clean_path (a ++ String "/" b) -> clean_path a.
Proof. unfold clean_path. rewrite split_slash_app. by intros [? ?]%Forall_app. Qed.

Lemma clean_path_lstrip s : clean_path s -> clean_path (lstrip_slash s).
Proof.
  induction s as [|c s IH]; cbn; [done|].
  destruct (is_slash c) eqn:Hc; [|done].
  unfold clean_path at 1. cbn. rewrite Hc. intros Hs. apply IH.
  by apply Forall_cons_1 in Hs as [_ ?].
Qed.

Lemma rstrip_slash_decompose s :
  rstrip_slash s = s \/ exists slashes, s = rstrip_slash s ++ String "/" slashes.
Proof.
  induction s as [|c s IH]; cbn; [by left|].
  destruct (rstrip_slash s) as [|k kept] eqn:Hr.
  - destruct (is_slash c) eqn:Hc.
    + right. exists s. apply is_slash_eq in Hc as ->. done.
    + destruct IH as [<-|[slashes ->]]; [by left|]. right. by exists slashes.
  - destruct IH as [<-|[slashes ->]]; [by left|]. right. by exists slashes.
Qed.

Lemma clean_path_rstrip s : clean_path s -> clean_path (rstrip_slash s).
Proof.
  destruct (rstrip_slash_decompose s) as [->|[slashes Hs]]; [done|].
  rewrite Hs at 1. apply clean_path_app_l.
Qed.

Lemma clean_path_strip s : clean_path s -> clean_path (strip_slash s).
Proof. intros Hs. by apply clean_path_rstrip, clean_path_lstrip. Qed.

Lemma replace_double_slash_cons c c' rest :
  replace_double_slash (String c (String c' rest))
  = if is_slash c && is_slash c' then String "/" (replace_double_slash rest)
    else String c (replace_double_slash (String c' rest)).
Proof. reflexivity. Qed.

Lemma split_slash_String c s :
  split_slash (String c s)
  = if is_slash c then EmptyString :: split_slash s
    else match split_slash s with
         | first :: others => String c first :: others
         | [] => [String c EmptyString]
         end.
Proof. reflexivity. Qed.

(** Replacing the double separators keeps the first component and drops
    some of the empty ones that follow. *)
Lemma split_replace_double_slash n : forall s,
  (String.length s <= n)%nat ->
  exists first others others',
    split_slash s = first :: others
    /\ split_slash (replace_double_slash s) = first :: others'
    /\ others' ⊆ others.
Proof.
  induction n as [|n IH]; intros s Hn.
  - destruct s; [|cbn in Hn; lia]. by eexists _, _, _.
  - destruct s as [|c [|c' rest]]; [by eexists _, _, _| |].
    { cbn. destruct (is_slash c); by eexists _, _, _. }
    rewrite replace_double_slash_cons.
    destruct (is_slash c && is_slash c') eqn:Hcc.
    + apply andb_true_iff in Hcc as [Hc Hc'].
      destruct (IH rest) as (first & others & others' & Hs & Hr & Hsub);
        [cbn in Hn; lia|].
      rewrite (split_slash_String c), (split_slash_String c'), Hc, Hc', Hs.
      rewrite (split_slash_String "/"), Hr. cbn [is_slash Ascii.eqb].
      exists EmptyString, (EmptyString :: first :: others), (first :: others').
      split; [done|]. split; [done|].
      intros x [->|Hx]%elem_of_cons; [right; left|do 2 right; by apply Hsub].
    + destruct (IH (String c' rest)) as (first & others & others' & Hs & Hr & Hsub);
        [cbn in Hn |- *; lia|].
      rewrite (split_slash_String c), (split_slash_String c (replace_double_slash _)).
      rewrite Hs, Hr.
      destruct (is_slash c).
      * exists EmptyString, (first :: others), (first :: others').
        split; [done|]. split; [done|].
        intros x [->|Hx]%elem_of_cons; [left|right; by apply Hsub].
      * by exists (String c first), others, others'.
Qed.

Lemma clean_path_replace s : clean_path s -> clean_path (replace_double_slash s).
Proof.
  unfold clean_path.
  destruct (split_replace_double_slash (String.length s) s)
    as (first & others & others' & -> & -> & Hsub); [done|].
  rewrite !Forall_cons, !Forall_forall. intros [? Hall]. split; [done|].
  intros x Hx. apply Hall, Hsub, Hx.
Qed.

(** The path that [walk_fs] builds for an entry. *)
Lemma clean_path_child path name :
  clean_path path -> kept_name name -> contains_slash name = false ->
  clean_path ("/" ++ replace_double_slash (join "/" [strip_slash path; name])).
Proof.
  intros Hp Hn Hs. rewrite append_cons, append_empty.
  apply clean_path_slash, clean_path_replace.
  unfold join. cbn [concat]. apply clean_path_app; [by apply clean_path_strip|].
  unfold clean_path. rewrite split_slash_name by done. by constructor.
Qed.

(** ** The walk *)

Lemma yield_from_fst g rest p :
  p ∈ fst (yield_from g rest) -> p ∈ fst g \/ p ∈ fst rest.
Proof.
  unfold yield_from. destruct (snd g); cbn; [by left|]. by intros ?%elem_of_app.
Qed.

Lemma walk_entries_clean recurse path directory :
  (forall path', clean_path path' -> forall p, p ∈ fst (recurse path') -> clean_path p) ->
  clean_path path ->
  (forall entry info name,
     entry ∈ directory -> entry_info entry = Some info -> info_name info = Some name ->
     contains_slash name = false) ->
  forall p, p ∈ fst (walk_entries recurse path directory) -> clean_path p.
Proof.
  intros Hrec Hpath. induction directory as [|entry rest IH]; intros Hnames p; cbn.
  { by intros ?%elem_of_nil. }
  assert (p ∈ fst (walk_entries recurse path rest) -> clean_path p) as Hrest.
  { apply IH. intros e i n He. apply Hnames. by right. }
  destruct (entry_info entry) as [info|] eqn:Hinfo; [|done].
  destruct (info_name info) as [name|] eqn:Hname; [|done].
  destruct (filtered_name name) eqn:Hkept; [done|].
  assert (clean_path ("/" ++ replace_double_slash (join "/" [strip_slash path; name])))
    as Hchild.
  { apply clean_path_child; [done|done|]. eapply Hnames; [by left|done|done]. }
  destruct (is_directory info).
  - intros [Hp|Hp]%yield_from_fst; [by eapply Hrec|by apply Hrest].
  - cbn. intros [->|Hp]%elem_of_cons; [done|by apply Hrest].
Qed.

Lemma walk_fs_clean depth fs : separator_free fs -> forall path,
  clean_path path -> forall p, p ∈ fst (walk_fs depth fs path) -> clean_path p.
Proof.
  intros Hfs. induction depth as [|depth IH]; intros path Hpath p; cbn.
  { by intros ?%elem_of_nil. }
  destruct (open_dir fs path) as [directory|e] eqn:Hdir.
  - apply walk_entries_clean; [done|done|].
    intros entry info name ? ? ?. by eapply Hfs.
  - destruct e; cbn; by intros ?%elem_of_nil.
Qed.

Lemma clean_root : clean_path "/".
Proof. unfold clean_path. cbn. by repeat constructor. Qed.

(** ** The digest *)

Lemma hex_digit_lower n : is_lower_hex (SHA256.hex_digit n) = true.
Proof.
  destruct n as [|p|p]; [done| |done].
  do 4 (destruct p as [p|p|]; try done).
Qed.

Lemma hex_word_is_hex w :
  String.length (SHA256.hex_word w) = 8%nat
  /\ forallb is_lower_hex (list_ascii_of_string (SHA256.hex_word w)) = true.
Proof.
  unfold SHA256.hex_word. cbn [seq rev app map string_of_list_ascii].
  split; [done|]. cbn [list_ascii_of_string forallb].
  by rewrite !hex_digit_lower.
Qed.

Lemma length_append (a b : string) :
  String.length (a ++ b) = (String.length a + String.length b)%nat.
Proof. induction a as [|c a IH]; [done|]. rewrite append_cons. cbn. by rewrite IH. Qed.

Lemma list_ascii_of_append (a b : string) :
  list_ascii_of_string (a ++ b)
  = (list_ascii_of_string a ++ list_ascii_of_string b)%list.
Proof. induction a as [|c a IH]; [done|]. rewrite append_cons. cbn. by rewrite IH. Qed.

(** The digest is always 64 lowercase hexadecimal digits. *)
Lemma sha256_hexdigest_is_hex data : is_sha256_hex (sha256_hexdigest data) = true.
Proof.
  unfold is_sha256_hex, sha256_hexdigest, SHA256.hexdigest.
  generalize (SHA256.digest data). intros [a b c d e f g h]. cbn [SHA256.ra SHA256.rb
    SHA256.rc SHA256.rd SHA256.re SHA256.rf SHA256.rg SHA256.rh].
  apply andb_true_iff. split.
  - rewrite !length_append.
    by rewrite !(proj1 (hex_word_is_hex _)).
  - rewrite !list_ascii_of_append, !forallb_app.
    by rewrite !(proj2 (hex_word_is_hex _)).
Qed.

(** What is known of a Finding that the search returns. *)
Lemma returned_finding depth pytsk3 image_path hashes w f :
  f ∈ returned (search_image_for_hashes depth pytsk3 image_path hashes w) ->
  hash_value f ∈ hashes
  /\ is_sha256_hex (hash_value f) = true
  /\ exists img offset fs file_obj data,
       Img_Info pytsk3 image_path = Ok img
       /\ FS_Info img offset = Ok fs
       /\ open fs (file_path f) = Ok file_obj
       /\ content_read file_obj = Ok data
       /\ hash_value f = sha256_hexdigest data.
Proof.
  unfold returned.
  destruct (search_image_run depth pytsk3 image_path hashes w) as (l & w' & -> & Hall).
  cbn. intros Hf.
  destruct (Hall f Hf) as (img & offset & fs & Himg & Hfs & (path & _ & Hfind) & _).
  apply finding_of_Some in Hfind
    as (file_obj & c & m & a & data & Hex & Hin & ->).
  apply examined_Ok in Hex as (Hopen & _ & Hread). cbn.
  split; [done|]. split; [apply sha256_hexdigest_is_hex|].
  by exists img, offset, fs, file_obj, data.
Qed.

(** A target set without any SHA-256 hexadecimal string matches nothing. *)
Corollary other_hashes_never_match depth pytsk3 image_path hashes w :
  (forall h, h ∈ hashes -> is_sha256_hex h = false) ->
  returned (search_image_for_hashes depth pytsk3 image_path hashes w) = [].
Proof.
  intros Hnone.
  destruct (returned _) as [|f l] eqn:Hl; [done|].
  assert (f ∈ returned (search_image_for_hashes depth pytsk3 image_path hashes w)) as Hf.
  { rewrite Hl. left. }
  apply returned_finding in Hf as (Hin & Hhex & _).
  apply Hnone in Hin. congruence.
Qed.

(** * The properties of the specification *)

(** C1 -- Soundness of matching: every Finding that
    [search_image_for_hashes] returns has a [hash_value] that is a member
    of the target set, and that is the digest computed from the bytes read
    from the file at its [file_path] in a filesystem of the image. *)
Theorem matching_is_sound depth pytsk3 image_path hashes w f :
  f ∈ returned (search_image_for_hashes depth pytsk3 image_path hashes w) ->
  hash_value f ∈ hashes
  /\ exists img offset fs file_obj data,
       Img_Info pytsk3 image_path = Ok img
       /\ FS_Info img offset = Ok fs
       /\ open fs (file_path f) = Ok file_obj
       /\ content_read file_obj = Ok data
       /\ hash_value f = sha256_hexdigest data.
Proof.
  intros (Hin & _ & Hread)%returned_finding. by split.
Qed.

Lemma search_of_two_files :
  returned (search_image_for_hashes recursion_limit image_of_two_files "disk.img"
              {[ h1 ]} world0)
  = [finding_a "//a.txt" None].
Proof. vm_compute. reflexivity. Qed.

Lemma matching_is_sound_witness :
  finding_a "//a.txt" None
    ∈ returned (search_image_for_hashes recursion_limit image_of_two_files "disk.img"
                  {[ h1 ]} world0)
  /\ (hash_value (finding_a "//a.txt" None) ∈ ({[ h1 ]} : gset string)
      /\ exists img offset fs file_obj data,
           Img_Info image_of_two_files "disk.img" = Ok img
           /\ FS_Info img offset = Ok fs
           /\ open fs (file_path (finding_a "//a.txt" None)) = Ok file_obj
           /\ content_read file_obj = Ok data
           /\ hash_value (finding_a "//a.txt" None) = sha256_hexdigest data).
Proof.
  assert (finding_a "//a.txt" None
            ∈ returned (search_image_for_hashes recursion_limit image_of_two_files
                          "disk.img" {[ h1 ]} world0)) as Hin.
  { rewrite search_of_two_files. left. }
  split; [exact Hin|].
  exact (matching_is_sound recursion_limit image_of_two_files "disk.img" {[ h1 ]}
           world0 (finding_a "//a.txt" None) Hin).
Defined.

(** C4 -- Path construction scenario: on the unpartitioned image that
    holds [/a.txt] and [/dir/b.txt], the search for the digest of
    [/a.txt] returns exactly one Finding, without [partition_offset]; its
    [file_path] is ["//a.txt"], with the separator doubled. *)
Theorem path_of_a_root_file :
  fst (search_image_for_hashes recursion_limit image_of_two_files "disk.img"
         {[ h1 ]} world0)
  = Ok [ {| hash_value := h1; file_path := "//a.txt"; file_size := 5;
            file_name := "a.txt"; partition_offset := None;
            created_time := None; modified_time := None; accessed_time := None |} ]
  /\ walk_fs recursion_limit (tree_fs two_files) "/" = (["//a.txt"; "/dir/b.txt"], None).
Proof. split; vm_compute; reflexivity. Qed.

(** The path of an entry of the root, whatever the filesystem: [replace]
    leaves one separator at the head, and the prefix doubles it. *)
Lemma replace_double_slash_name s :
  contains_slash s = false -> replace_double_slash s = s.
Proof.
  induction s as [|c s IH]; [done|]. cbn [contains_slash].
  intros [Hc Hs]%orb_false_iff. destruct s as [|c' s]; [done|].
  rewrite replace_double_slash_cons, Hc. cbn [andb]. by rewrite IH.
Qed.

Lemma root_entry_path recurse name meta rest :
  contains_slash name = false ->
  filtered_name name = false ->
  is_directory {| info_name := Some name; info_meta := meta |} = false ->
  walk_entries recurse "/" (named_entry name meta :: rest)
  = yield (String "/" (String "/" name)) (walk_entries recurse "/" rest).
Proof.
  intros Hname Hkept Hfile. cbn. rewrite Hkept, Hfile.
  unfold join. cbn [concat]. rewrite !append_empty, !append_cons, !append_empty.
  destruct name as [|c name]; [done|].
  rewrite replace_double_slash_cons.
  cbn [contains_slash] in Hname. apply orb_false_iff in Hname as [Hc Hname'].
  rewrite Hc, andb_false_r, replace_double_slash_name; [done|].
  cbn [contains_slash]. by rewrite Hc, Hname'.
Qed.

(** C6 -- Partition provenance: on an image with a partition table, every
    Finding carries the start of the partition it was found in, in blocks,
    and the filesystem of that partition is the one mounted at that start
    multiplied by the block size; with partitions at the blocks 0 and 2048
    that hold one matching file each, the search returns two Findings,
    tagged 0 and 2048. *)
Theorem partition_provenance :
  (forall depth pytsk3 image_path hashes w img volume f,
     Img_Info pytsk3 image_path = Ok img ->
     Volume_Info img = Ok volume ->
     f ∈ returned (search_image_for_hashes depth pytsk3 image_path hashes w) ->
     exists partition fs,
       partition ∈ partitions volume
       /\ partition_offset f = Some (start partition)
       /\ FS_Info img (start partition * block_size volume) = Ok fs
       /\ found_in depth fs hashes (Some (start partition)) f)
  /\ returned (search_image_for_hashes recursion_limit (library "disk.img" two_partitions)
                 "disk.img" {[ h1; h2 ]} world0)
     = [finding_a "//a.txt" (Some 0%Z); finding_b "//b.txt" (Some 2048%Z)].
Proof.
  split; [|vm_compute; reflexivity].
  intros depth pytsk3 image_path hashes w img volume f Himg Hvol. unfold returned.
  destruct (search_image_run depth pytsk3 image_path hashes w) as (l & w' & -> & Hall).
  cbn. intros Hf.
  destruct (Hall f Hf) as (img' & offset & fs & Himg' & Hfs & Hfound & Hmode).
  assert (img' = img) as -> by congruence.
  destruct Hmode as [[[e He] _]|(volume' & partition & Hvol' & Hin & -> & Htag)];
    [congruence|].
  assert (volume' = volume) as -> by congruence.
  exists partition, fs. rewrite Htag in Hfound. done.
Qed.

Lemma partition_provenance_witness :
  (Img_Info (library "disk.img" two_partitions) "disk.img" = Ok two_partitions
   /\ Volume_Info two_partitions
      = Ok {| partitions := [ {| start := 0 |}; {| start := 2048 |} ]; block_size := 512 |}
   /\ finding_b "//b.txt" (Some 2048%Z)
        ∈ returned (search_image_for_hashes recursion_limit
                      (library "disk.img" two_partitions) "disk.img" {[ h1; h2 ]} world0))
  /\ exists partition fs,
       partition ∈ [ {| start := 0 |}; {| start := 2048 |} ]
       /\ partition_offset (finding_b "//b.txt" (Some 2048%Z)) = Some (start partition)
       /\ FS_Info two_partitions (start partition * 512) = Ok fs
       /\ found_in recursion_limit fs {[ h1; h2 ]} (Some (start partition))
            (finding_b "//b.txt" (Some 2048%Z)).
Proof.
  assert (finding_b "//b.txt" (Some 2048%Z)
            ∈ returned (search_image_for_hashes recursion_limit
                          (library "disk.img" two_partitions) "disk.img"
                          {[ h1; h2 ]} world0)) as Hin.
  { rewrite (proj2 partition_provenance). right. left. }
  split; [split; [reflexivity|split; [reflexivity|exact Hin]]|].
  exact (proj1 partition_provenance recursion_limit (library "disk.img" two_partitions)
           "disk.img" {[ h1; h2 ]} world0 two_partitions
           {| partitions := [ {| start := 0 |}; {| start := 2048 |} ]; block_size := 512 |}
           (finding_b "//b.txt" (Some 2048%Z)) eq_refl eq_refl Hin).
Defined.

(** The tag is the start in blocks, not the offset of the mount: the
    Finding of the second partition is tagged 2048, the filesystem that
    holds its file is mounted at 1048576, and nothing is mounted at 2048. *)
Lemma tag_is_not_the_mount_offset :
  ~ (forall f,
       f ∈ returned (search_image_for_hashes recursion_limit
                       (library "disk.img" two_partitions) "disk.img"
                       {[ h1; h2 ]} world0) ->
       exists offset fs,
         partition_offset f = Some offset
         /\ FS_Info two_partitions offset = Ok fs
         /\ found_in recursion_limit fs {[ h1; h2 ]} (partition_offset f) f).
Proof.
  intros Hclaim.
  destruct (Hclaim (finding_b "//b.txt" (Some 2048%Z))) as (offset & fs & Htag & Hfs & _).
  { assert (returned (search_image_for_hashes recursion_limit
                        (library "disk.img" two_partitions) "disk.img"
                        {[ h1; h2 ]} world0)
            = [finding_a "//a.txt" (Some 0%Z); finding_b "//b.txt" (Some 2048%Z)]) as ->
      by (vm_compute; reflexivity).
    right. left. }
  cbn in Htag. injection Htag as <-. discriminate Hfs.
Qed.

(** C3 -- Traversal filtering: an entry named [.], [..] or beginning with
    [$] is neither yielded nor recursed into, whatever the filesystem and
    the starting path; when moreover no entry name holds a separator and
    the starting path has no such component, no component of a yielded
    path is such a name, and so none of the [file_path] of a Finding,
    whose walk starts at the root. *)
Theorem traversal_filtering depth fs path :
  (forall recurse entry rest info name,
     entry_info entry = Some info -> info_name info = Some name ->
     filtered_name name = true ->
     walk_entries recurse path (entry :: rest) = walk_entries recurse path rest)
  /\ (separator_free fs -> clean_path path ->
      forall p, p ∈ fst (walk_fs depth fs path) -> clean_path p)
  /\ (separator_free fs ->
      forall hashes partition_offset w f,
        f ∈ returned (search_filesystem depth fs hashes partition_offset w) ->
        clean_path (file_path f)).
Proof.
  split; [|split].
  - intros recurse entry rest info name Hinfo Hname Hfiltered. cbn.
    by rewrite Hinfo, Hname, Hfiltered.
  - intros Hfs Hpath. by apply walk_fs_clean.
  - intros Hfs hashes partition_offset w f (p & Hp & Hfind)%search_filesystem_found.
    apply finding_of_Some in Hfind as (? & ? & ? & ? & ? & _ & _ & ->). cbn.
    eapply walk_fs_clean; [done|apply clean_root|done].
Qed.

Lemma one_entry_separator_free name meta file :
  contains_slash name = false ->
  separator_free (one_entry_fs (named_entry name meta) file).
Proof.
  intros Hname path directory entry info name' Hdir Hin Hinfo Hname'.
  cbn in Hdir. destruct (String.eqb path "/"); [|done].
  injection Hdir as <-. apply list_elem_of_singleton in Hin as ->.
  cbn in Hinfo. injection Hinfo as <-. cbn in Hname'. by injection Hname' as <-.
Qed.

Lemma traversal_filtering_witness :
  (walk_entries (walk_fs 1 plain_fs) "/"
     [ named_entry "$MFT" (Some regular_meta); named_entry "x" (Some regular_meta) ]
   = walk_entries (walk_fs 1 plain_fs) "/" [ named_entry "x" (Some regular_meta) ])
  /\ ((separator_free plain_fs /\ clean_path "/" /\ "//x" ∈ fst (walk_fs 1 plain_fs "/"))
      /\ clean_path "//x")
  /\ ((separator_free plain_fs
       /\ finding_x ∈ returned (search_filesystem 1 plain_fs {[ empty_hash ]} None world0))
      /\ clean_path (file_path finding_x)).
Proof.
  assert (separator_free plain_fs) as Hfs
    by (apply one_entry_separator_free; reflexivity).
  assert (clean_path "/") as Hroot by apply clean_root.
  assert ("//x" ∈ fst (walk_fs 1 plain_fs "/")) as Hin by left.
  assert (finding_x ∈ returned (search_filesystem 1 plain_fs {[ empty_hash ]} None world0))
    as Hfound.
  { assert (returned (search_filesystem 1 plain_fs {[ empty_hash ]} None world0)
            = [finding_x]) as -> by (vm_compute; reflexivity).
    left. }
  destruct (traversal_filtering 1 plain_fs "/") as (Hskip & Hwalk & Hfind).
  split; [|split].
  - exact (Hskip (walk_fs 1 plain_fs) (named_entry "$MFT" (Some regular_meta))
             [ named_entry "x" (Some regular_meta) ]
             {| info_name := Some "$MFT"; info_meta := Some regular_meta |} "$MFT"
             eq_refl eq_refl eq_refl).
  - split; [by repeat split|]. exact (Hwalk Hfs Hroot "//x" Hin).
  - split; [by split|]. exact (Hfind Hfs {[ empty_hash ]} None world0 finding_x Hfound).
Defined.

(** A path of the walk with a component that begins with [$]: through an
    entry name that holds a separator, and through the starting path. *)
Lemma filtered_component_in_a_path :
  (exists p c, p ∈ fst (walk_fs 1 slash_name_fs "/")
               /\ c ∈ split_slash p /\ filtered_name c = true)
  /\ (exists f c, f ∈ returned (search_filesystem 1 slash_name_fs {[ empty_hash ]} None world0)
                  /\ c ∈ split_slash (file_path f) /\ filtered_name c = true)
  /\ (exists p c, p ∈ fst (walk_fs recursion_limit (tree_fs extend_volume) "/$Extend")
                  /\ c ∈ split_slash p /\ filtered_name c = true).
Proof.
  split; [|split].
  - exists "//x/$y", "$y".
    assert (walk_fs 1 slash_name_fs "/" = (["//x/$y"], None)) as -> by reflexivity.
    split; [left|]. split; [|reflexivity].
    assert (split_slash "//x/$y" = [EmptyString; EmptyString; "x"; "$y"]) as -> by reflexivity.
    do 3 right. left.
  - eexists _, "$y".
    assert (returned (search_filesystem 1 slash_name_fs {[ empty_hash ]} None world0)
            = [ {| hash_value := empty_hash; file_path := "//x/$y"; file_size := 0;
                   file_name := "$y"; partition_offset := None;
                   created_time := None; modified_time := None;
                   accessed_time := None |} ]) as -> by (vm_compute; reflexivity).
    split; [left|]. split; [|reflexivity]. cbn [file_path].
    assert (split_slash "//x/$y" = [EmptyString; EmptyString; "x"; "$y"]) as -> by reflexivity.
    do 3 right. left.
  - exists "/$Extend/x", "$Extend".
    assert (walk_fs recursion_limit (tree_fs extend_volume) "/$Extend"
            = (["/$Extend/x"], None)) as -> by (vm_compute; reflexivity).
    split; [left|]. split; [|reflexivity].
    assert (split_slash "/$Extend/x" = [EmptyString; "$Extend"; "x"]) as -> by reflexivity.
    right. left.
Qed.

(** C7 -- Entries without a name: a directory entry that has no [info] or
    no name is skipped by the walk, so it yields no path to hash; an entry
    that has a kept name and no metadata is yielded as a file. *)
Theorem entries_without_name_are_skipped recurse path entry rest :
  ((entry_info entry = None
    \/ exists info, entry_info entry = Some info /\ info_name info = None) ->
   walk_entries recurse path (entry :: rest) = walk_entries recurse path rest)
  /\ (forall info name,
        entry_info entry = Some info -> info_name info = Some name ->
        filtered_name name = false -> info_meta info = None ->
        walk_entries recurse path (entry :: rest)
        = yield ("/" ++ replace_double_slash (join "/" [strip_slash path; name]))
                (walk_entries recurse path rest)).
Proof.
  split.
  - intros [Hinfo|(info & Hinfo & Hname)]; cbn; rewrite Hinfo; [done|by rewrite Hname].
  - intros info name Hinfo Hname Hkept Hmeta. cbn.
    rewrite Hinfo, Hname, Hkept. unfold is_directory. by rewrite Hmeta.
Qed.

Lemma entries_without_name_are_skipped_witness :
  ((entry_info {| entry_info := None |} = None
    \/ exists info, entry_info {| entry_info := None |} = Some info /\ info_name info = None)
   /\ walk_entries (walk_fs 0 no_meta_fs) "/" [ {| entry_info := None |}; named_entry "x" None ]
      = walk_entries (walk_fs 0 no_meta_fs) "/" [ named_entry "x" None ])
  /\ ((entry_info (named_entry "x" None) = Some {| info_name := Some "x"; info_meta := None |}
       /\ filtered_name "x" = false)
      /\ walk_entries (walk_fs 0 no_meta_fs) "/" [ named_entry "x" None ]
         = yield ("/" ++ replace_double_slash (join "/" [strip_slash "/"; "x"]))
                 (walk_entries (walk_fs 0 no_meta_fs) "/" [])).
Proof.
  split; [|split; [split; reflexivity|];
           exact (proj2 (entries_without_name_are_skipped (walk_fs 0 no_meta_fs) "/"
                           (named_entry "x" None) [])
                    {| info_name := Some "x"; info_meta := None |} "x"
                    eq_refl eq_refl eq_refl eq_refl)].
  assert (entry_info {| entry_info := None |} = None
          \/ exists info, entry_info {| entry_info := None |} = Some info
                          /\ info_name info = None) as Hno by (left; reflexivity).
  split; [exact Hno|].
  exact (proj1 (entries_without_name_are_skipped (walk_fs 0 no_meta_fs) "/"
                  {| entry_info := None |} [ named_entry "x" None ]) Hno).
Defined.

(** An entry without metadata is yielded, and its path has a Finding when
    the digest of the empty content is in the target set. *)
Lemma entry_without_metadata_is_yielded :
  open_dir no_meta_fs "/"
    = Ok [ {| entry_info := Some {| info_name := Some "x"; info_meta := None |} |} ]
  /\ walk_fs 1 no_meta_fs "/" = (["//x"], None)
  /\ returned (search_filesystem 1 no_meta_fs {[ empty_hash ]} None world0)
     = [ {| hash_value := empty_hash; file_path := "//x"; file_size := 0;
            file_name := "x"; partition_offset := None;
            created_time := None; modified_time := None; accessed_time := None |} ]
  /\ ~ (forall recurse path entry rest info,
          entry_info entry = Some info -> info_meta info = None ->
          walk_entries recurse path (entry :: rest) = walk_entries recurse path rest).
Proof.
  split; [reflexivity|]. split; [reflexivity|]. split; [vm_compute; reflexivity|].
  intros Hclaim.
  specialize (Hclaim (walk_fs 0 no_meta_fs) "/" (named_entry "x" None) []
                {| info_name := Some "x"; info_meta := None |} eq_refl eq_refl).
  discriminate Hclaim.
Qed.



(** After an [IOError] on the directory the scan goes on with the file
    that follows it. *)
Example scan_after_an_IOError :
  walk_fs recursion_limit (failing_subdirectory IOError) "/" = (["//a.txt"; "//c.txt"], None)
  /\ returned (search_filesystem recursion_limit (failing_subdirectory IOError)
                 {[ h1; h2 ]} None world0)
     = [finding_a "//a.txt" None;
        {| hash_value := h2; file_path := "//c.txt"; file_size := 4; file_name := "c.txt";
           partition_offset := None;
           created_time := None; modified_time := None; accessed_time := None |}].
Proof. split; vm_compute; reflexivity. Qed.


(** The periodic report of the first file divides by zero whenever the
    first two readings of the clock differ, as floats, by one interval or
    more and the third reading is the second again. *)
Lemma first_report_divides_by_zero depth fs hashes partition_offset w path rest stop :
  walk_fs depth fs "/" = (path :: rest, stop) ->
  (1 <= fsub (clock w (S (reads w))) (clock w (reads w)))%Q ->
  (clock w (S (S (reads w))) == clock w (S (reads w)))%Q ->
  fst (search_filesystem depth fs hashes partition_offset w) = Raise ZeroDivisionError.
Proof.
  intros Hwalk Hgap Hsame. unfold search_filesystem.
  unfold bind at 1, time_time at 1. unfold bind at 1, time_time at 1.
  unfold bind at 1, logger at 1, emit at 1. cbn [clock reads trace].
  unfold bind at 1. rewrite Hwalk. cbn [fst for_each]. unfold bind at 1.
  match goal with |- context [iteration ?f ?h ?p ?i ?s ?st ?pa ?w0] =>
    destruct (iteration_run f h p i s st pa w0) as (w1 & -> & _) end.
  cbn [clock reads].
  assert (report_fails 1 (clock w (S (reads w)))
            {| findings := []; processed_files := 0; matches_found := 0;
               last_progress_time := clock w (reads w) |}
            (clock w (S (S (reads w)))) = true) as ->; [|done].
  unfold report_fails. cbn [last_progress_time]. apply andb_true_iff. split.
  - apply Qle_bool_iff. unfold fsub in *.
    rewrite (fl_proper _ (clock w (S (reads w)) - clock w (reads w))); [done|].
    by rewrite Hsame.
  - apply Qeq_bool_iff. by apply fsub_zero.
Qed.

(** C9 -- Progress reporting: with a clock that reads 0, 1 and 1, the
    periodic report of the first file divides by an elapsed time of zero;
    the scan raises [ZeroDivisionError] and its match is lost. *)
Theorem periodic_report_divides_by_zero :
  fst (search_filesystem recursion_limit (tree_fs two_files) {[ h1 ]} None stalled_world)
  = Raise ZeroDivisionError
  /\ fst (search_image_for_hashes recursion_limit image_of_two_files "disk.img"
            {[ h1 ]} stalled_world)
     = Ok [].
Proof. split; vm_compute; reflexivity. Qed.

(** The rounding of the difference matters: with a clock that reads
    2 ^ -60, 1 and 1, less than a second passes between the first two
    readings, yet their difference is the float 1.0 and the report of the
    first file divides by zero. *)
Lemma report_after_a_rounded_second :
  (clock rounding_world 1 - clock rounding_world 0 < 1)%Q
  /\ Qred (fsub (clock rounding_world 1) (clock rounding_world 0)) = 1%Q
  /\ fst (search_filesystem recursion_limit (tree_fs two_files) {[ h1 ]} None
            rounding_world)
     = Raise ZeroDivisionError.
Proof. split; [reflexivity|]. split; vm_compute; reflexivity. Qed.

(** ** Counting the calls *)

Lemma count_app f t1 t2 : count f (t1 ++ t2) = (count f t1 + count f t2)%nat.
Proof. unfold count. by rewrite List.filter_app, length_app. Qed.

(** The calls for one path: one [open] of it and of no other path, at most
    one [read_random], of it, and at most one [sha256]. *)
Lemma calls_of_counted fs path other :
  count (is_open_of other) (calls_of fs path) = (if String.eqb path other then 1 else 0)%nat
  /\ (count (is_read_of other) (calls_of fs path)
      <= if String.eqb path other then 1 else 0)%nat
  /\ (count is_hash (calls_of fs path) <= 1)%nat.
Proof.
  unfold calls_of, count.
  destruct (open fs path) as [file_obj|e];
    [|cbn; destruct (String.eqb path other); cbn; lia].
  destruct (times_of file_obj); [|cbn; destruct (String.eqb path other); cbn; lia].
  destruct (declared_size file_obj =? 0)%Z, (content_read file_obj);
    cbn; destruct (String.eqb path other); cbn; lia.
Qed.

Lemma calls_counted fs path yielded :
  count (is_open_of path) (flat_map (calls_of fs) yielded) = occurrences path yielded
  /\ (count (is_read_of path) (flat_map (calls_of fs) yielded)
      <= occurrences path yielded)%nat
  /\ (count is_hash (flat_map (calls_of fs) yielded) <= length yielded)%nat.
Proof.
  induction yielded as [|p rest (IHo & IHr & IHh)]; [done|].
  cbn [flat_map]. rewrite !count_app.
  destruct (calls_of_counted fs p path) as (Ho & Hr & Hh).
  unfold occurrences in *. cbn [List.filter length].
  destruct (String.eqb p path); cbn [length]; lia.
Qed.

(** A path that is yielded, and yielded once only. *)
Lemma occurrences_NoDup path yielded :
  NoDup yielded -> path ∈ yielded -> occurrences path yielded = 1%nat.
Proof.
  unfold occurrences. induction 1 as [|p rest Hnotin Hnodup IH]; [by intros ?%elem_of_nil|].
  cbn [List.filter]. intros [Heq|Hin]%elem_of_cons.
  - subst p. rewrite String.eqb_refl. cbn [length]. f_equal.
    clear IH Hnodup. induction rest as [|q rest IH]; [done|].
    apply not_elem_of_cons in Hnotin as [Hne Hnotin]. cbn [List.filter].
    destruct (String.eqb_spec q path) as [->|_]; [done|]. by apply IH.
  - destruct (String.eqb_spec p path) as [->|_]; [done|]. by apply IH.
Qed.

(** C2 -- Processing of the yields: when the walk returns and the clock
    has left [start_time] at every later reading, the scan returns, in the
    order of the walk, one Finding for each yield whose file is opened,
    whose timestamps convert, which is read and whose digest is in the
    target set, and none for the others; a path is opened as many times as
    it is yielded, read at most as many times, and at most one digest is
    computed for each yield. When no path is yielded twice, each yielded
    file is opened exactly once. *)
Theorem exactly_once depth fs hashes partition_offset w yielded :
  walk_fs depth fs "/" = (yielded, None) ->
  advances w ->
  exists w',
    search_filesystem depth fs hashes partition_offset w
    = (Ok (omap (finding_of fs hashes partition_offset) yielded), w')
    /\ calls (trace w') = (calls (trace w) ++ flat_map (calls_of fs) yielded)%list
    /\ (forall path,
          is_Some (finding_of fs hashes partition_offset path) <->
          exists file_obj times data,
            examined fs path = Ok (file_obj, times, data)
            /\ sha256_hexdigest data ∈ hashes)
    /\ (forall path,
          count (is_open_of path) (flat_map (calls_of fs) yielded)
          = occurrences path yielded
          /\ (count (is_read_of path) (flat_map (calls_of fs) yielded)
              <= occurrences path yielded)%nat
          /\ (count is_hash (flat_map (calls_of fs) yielded) <= length yielded)%nat)
    /\ (NoDup yielded ->
        forall path, path ∈ yielded ->
          count (is_open_of path) (flat_map (calls_of fs) yielded) = 1%nat
          /\ (count (is_read_of path) (flat_map (calls_of fs) yielded) <= 1)%nat).
Proof.
  intros Hwalk Hclock.
  destruct (search_filesystem_benign depth fs hashes partition_offset w yielded Hwalk Hclock)
    as (w' & Hrun & Hcalls).
  exists w'. split; [done|]. split; [done|]. split; [|split].
  - intros path. unfold finding_of.
    destruct (examined fs path) as [[[file_obj [[c m] a]] data]|e].
    + case_bool_decide.
      * split; [|by eauto]. intros _. by eexists _, _, _.
      * split; [by intros [? ?]|]. intros (? & ? & ? & [= <- <- <-] & ?). done.
    + split; [by intros [? ?]|]. by intros (? & ? & ? & ? & ?).
  - intros path. apply calls_counted.
  - intros Hnodup path Hin.
    destruct (calls_counted fs path yielded) as (Hopen & Hread & _).
    by rewrite (occurrences_NoDup path yielded Hnodup Hin) in Hopen, Hread.
Qed.

Lemma exactly_once_witness :
  (walk_fs recursion_limit (tree_fs two_files) "/" = (["//a.txt"; "/dir/b.txt"], None)
   /\ advances world0)
  /\ exists w',
       search_filesystem recursion_limit (tree_fs two_files) {[ h1 ]} None world0
       = (Ok (omap (finding_of (tree_fs two_files) {[ h1 ]} None)
                ["//a.txt"; "/dir/b.txt"]), w')
       /\ calls (trace w')
          = (calls (trace world0)
             ++ flat_map (calls_of (tree_fs two_files)) ["//a.txt"; "/dir/b.txt"])%list
       /\ (forall path,
             is_Some (finding_of (tree_fs two_files) {[ h1 ]} None path) <->
             exists file_obj times data,
               examined (tree_fs two_files) path = Ok (file_obj, times, data)
               /\ sha256_hexdigest data ∈ ({[ h1 ]} : gset string))
       /\ (forall path,
             count (is_open_of path)
               (flat_map (calls_of (tree_fs two_files)) ["//a.txt"; "/dir/b.txt"])
             = occurrences path ["//a.txt"; "/dir/b.txt"]
             /\ (count (is_read_of path)
                   (flat_map (calls_of (tree_fs two_files)) ["//a.txt"; "/dir/b.txt"])
                 <= occurrences path ["//a.txt"; "/dir/b.txt"])%nat
             /\ (count is_hash
                   (flat_map (calls_of (tree_fs two_files)) ["//a.txt"; "/dir/b.txt"])
                 <= length ["//a.txt"; "/dir/b.txt"])%nat)
       /\ (NoDup ["//a.txt"; "/dir/b.txt"] ->
           forall path, path ∈ ["//a.txt"; "/dir/b.txt"] ->
             count (is_open_of path)
               (flat_map (calls_of (tree_fs two_files)) ["//a.txt"; "/dir/b.txt"])
             = 1%nat
             /\ (count (is_read_of path)
                   (flat_map (calls_of (tree_fs two_files)) ["//a.txt"; "/dir/b.txt"])
                 <= 1)%nat).
Proof.
  assert (walk_fs recursion_limit (tree_fs two_files) "/"
          = (["//a.txt"; "/dir/b.txt"], None)) as Hwalk by (vm_compute; reflexivity).
  split; [split; [exact Hwalk|exact world0_advances]|].
  exact (exactly_once recursion_limit (tree_fs two_files) {[ h1 ]} None world0
           ["//a.txt"; "/dir/b.txt"] Hwalk world0_advances).
Defined.

(** A yielded file that cannot be opened is opened once and is neither
    read nor hashed. *)
Lemma unopenable_file_is_not_hashed :
  walk_fs 1 unopenable_fs "/" = (["//x"], None)
  /\ calls (trace (snd (search_filesystem 1 unopenable_fs {[ empty_hash ]} None world0)))
     = [Call_open "//x"]
  /\ ~ (forall path,
          path ∈ fst (walk_fs 1 unopenable_fs "/") ->
          let t := trace (snd (search_filesystem 1 unopenable_fs {[ empty_hash ]}
                                 None world0)) in
          count (is_open_of path) t = 1%nat
          /\ count (is_read_of path) t = 1%nat
          /\ count is_hash t = length (fst (walk_fs 1 unopenable_fs "/"))).
Proof.
  split; [reflexivity|]. split; [vm_compute; reflexivity|].
  intros Hclaim. destruct (Hclaim "//x") as (_ & Hread & _); [left|].
  vm_compute in Hread. discriminate Hread.
Qed.

(** A file that its directory lists twice is yielded twice, opened twice
    and reported twice. *)
Lemma file_listed_twice :
  walk_fs 1 listed_twice_fs "/" = (["//x"; "//x"], None)
  /\ fst (search_filesystem 1 listed_twice_fs {[ empty_hash ]} None world0)
     = Ok [finding_x; finding_x]
  /\ count (is_open_of "//x")
       (trace (snd (search_filesystem 1 listed_twice_fs {[ empty_hash ]} None world0)))
     = 2%nat.
Proof. repeat split; vm_compute; reflexivity. Qed.

(** * Further properties of the traversal *)

(** ** The depth of the walk *)

Lemma walk_entries_deeper (shallow deep : string -> generated) path directory :
  (forall p, snd (shallow p) <> Some RecursionError -> deep p = shallow p) ->
  snd (walk_entries shallow path directory) <> Some RecursionError ->
  walk_entries deep path directory = walk_entries shallow path directory.
Proof.
  intros Hdeep. induction directory as [|entry rest IH]; [done|]. cbn.
  destruct (entry_info entry) as [info|]; [|done].
  destruct (info_name info) as [name|]; [|done].
  destruct (filtered_name name); [done|].
  destruct (is_directory info).
  - match goal with |- context [shallow ?c] => generalize c end.
    intros child. unfold yield_from. intros Hend.
    destruct (snd (shallow child)) as [e|] eqn:Hchild; cbn in Hend.
    + rewrite Hdeep by (by rewrite Hchild). by rewrite Hchild.
    + rewrite Hdeep by (by rewrite Hchild). by rewrite Hchild, IH.
  - unfold yield. cbn. intros Hrest. by rewrite IH.
Qed.

Lemma walk_fs_one_deeper depth fs : forall path,
  snd (walk_fs depth fs path) <> Some RecursionError ->
  walk_fs (S depth) fs path = walk_fs depth fs path.
Proof.
  induction depth as [|depth IH]; intros path; [done|].
  change (walk_fs (S (S depth)) fs path)
    with (match open_dir fs path with
          | Raise IOError => ([], None)
          | Raise e => ([], Some e)
          | Ok directory => walk_entries (walk_fs (S depth) fs) path directory
          end).
  change (walk_fs (S depth) fs path)
    with (match open_dir fs path with
          | Raise IOError => ([], None)
          | Raise e => ([], Some e)
          | Ok directory => walk_entries (walk_fs depth fs) path directory
          end).
  destruct (open_dir fs path) as [directory|e]; [|done].
  by apply walk_entries_deeper.
Qed.

(** X1 -- The recursion limit matters only when it is exceeded: a walk
    that does not end in [RecursionError] yields the same paths and ends
    the same way with any larger limit. *)
Theorem walk_fs_deeper depth more fs path :
  snd (walk_fs depth fs path) <> Some RecursionError ->
  walk_fs (depth + more) fs path = walk_fs depth fs path.
Proof.
  intros Hend. induction more as [|more IH].
  - by rewrite Nat.add_0_r.
  - rewrite Nat.add_succ_r, walk_fs_one_deeper; [done|]. by rewrite IH.
Qed.

Lemma walk_fs_deeper_witness :
  snd (walk_fs 2 (tree_fs two_files) "/") <> Some RecursionError
  /\ walk_fs (2 + 998) (tree_fs two_files) "/" = walk_fs 2 (tree_fs two_files) "/".
Proof.
  assert (snd (walk_fs 2 (tree_fs two_files) "/") <> Some RecursionError) as Hend
    by (vm_compute; discriminate).
  split; [exact Hend|].
  exact (walk_fs_deeper 2 998 (tree_fs two_files) "/" Hend).
Defined.

(** A chain of first subdirectories as deep as the limit exhausts it. *)
Lemma walk_fs_descends depth fs :
  forall path,
  descends fs depth path = true -> walk_fs depth fs path = ([], Some RecursionError).
Proof.
  induction depth as [|depth IH]; intros path Hchain; [done|].
  cbn [descends walk_fs] in Hchain |- *. unfold first_subdirectory in Hchain.
  destruct (open_dir fs path) as [[|entry rest]|e]; [done| |done].
  cbn [walk_entries].
  destruct (entry_info entry) as [info|]; [|done].
  destruct (info_name info) as [name|]; [|done].
  destruct (filtered_name name); [done|].
  destruct (is_directory info); [|done]. cbn [negb andb] in Hchain.
  unfold yield_from. fold (entry_path path name). by rewrite (IH _ Hchain).
Qed.

(** X2 -- A directory that lists itself: when the first entry of each
    directory is a kept subdirectory, from the root down and for as many
    levels as the recursion limit allows, as when a directory lists
    itself, the walk yields nothing and ends in [RecursionError], and the
    scan of the filesystem raises it. *)
Theorem self_listing_directory depth fs hashes partition_offset w :
  descends fs depth "/" = true ->
  walk_fs depth fs "/" = ([], Some RecursionError)
  /\ fst (search_filesystem depth fs hashes partition_offset w) = Raise RecursionError.
Proof.
  intros Hwalk%walk_fs_descends. split; [done|].
  unfold search_filesystem.
  unfold bind at 1, time_time at 1. unfold bind at 1, time_time at 1.
  unfold bind at 1, logger at 1, emit at 1. cbn [clock reads trace].
  unfold bind at 1. by rewrite Hwalk.
Qed.

Lemma self_listing_directory_witness :
  descends loop_fs recursion_limit "/" = true
  /\ walk_fs recursion_limit loop_fs "/" = ([], Some RecursionError)
  /\ fst (search_filesystem recursion_limit loop_fs {[ h1 ]} None world0)
     = Raise RecursionError.
Proof.
  assert (descends loop_fs recursion_limit "/" = true) as Hchain
    by (vm_compute; reflexivity).
  split; [exact Hchain|].
  exact (self_listing_directory recursion_limit loop_fs {[ h1 ]} None world0 Hchain).
Defined.

(** ** The shape of the yielded paths *)

Lemma starts_with_slash_app (a b : string) :
  a <> EmptyString -> starts_with_slash (a ++ b) = starts_with_slash a.
Proof. by destruct a. Qed.

Lemma ends_with_slash_cons c (s : string) :
  s <> EmptyString -> ends_with_slash (String c s) = ends_with_slash s.
Proof. by destruct s. Qed.

Lemma ends_with_slash_app (a b : string) :
  b <> EmptyString -> ends_with_slash (a ++ b) = ends_with_slash b.
Proof.
  intros Hb. induction a as [|c a IH]; [done|].
  rewrite append_cons, ends_with_slash_cons; [done|]. by destruct a, b.
Qed.

Lemma has_double_slash_app (a b : string) :
  ends_with_slash a = false -> has_double_slash a = false ->
  starts_with_slash b = false -> has_double_slash b = false ->
  has_double_slash (a ++ String "/" b) = false.
Proof.
  intros Hend Hdouble Hstart Hb. induction a as [|c a IH].
  - rewrite append_empty. cbn. by rewrite Hstart, Hb.
  - rewrite append_cons. cbn [has_double_slash] in *.
    apply orb_false_iff in Hdouble as [Hc Ha].
    destruct a as [|c' a].
    + rewrite append_empty. cbn in Hend |- *. by rewrite Hend, Hstart, Hb.
    + rewrite starts_with_slash_app by done. rewrite Hc. cbn [orb].
      apply IH; [|done]. by rewrite ends_with_slash_cons in Hend.
Qed.

Lemma name_is_tidy name :
  name <> EmptyString -> contains_slash name = false -> tidy name.
Proof.
  intros Hne Hname. split; [done|].
  assert (starts_with_slash name = false) as Hstart.
  { destruct name; [done|]. cbn in *. by apply orb_false_iff in Hname as [? _]. }
  split; [done|]. clear Hne Hstart. split.
  - induction name as [|c name IH]; [done|].
    cbn [contains_slash] in Hname. apply orb_false_iff in Hname as [Hc Hname].
    destruct name; [done|]. rewrite ends_with_slash_cons by done. by apply IH.
  - induction name as [|c name IH]; [done|].
    cbn [contains_slash] in Hname. apply orb_false_iff in Hname as [Hc Hname].
    cbn. by rewrite Hc, IH.
Qed.

Lemma tidy_app a b : tidy a -> tidy b -> tidy (a ++ String "/" b).
Proof.
  intros (Ha & Hsa & Hea & Hda) (Hb & Hsb & Heb & Hdb). split; [by destruct a|].
  split; [by rewrite starts_with_slash_app|].
  split; [|by apply has_double_slash_app].
  rewrite ends_with_slash_app by done. by rewrite ends_with_slash_cons.
Qed.

Lemma concat_cons_cons (x y : string) l :
  String.concat "/" (x :: y :: l) = x ++ String "/" (String.concat "/" (y :: l)).
Proof. reflexivity. Qed.

Lemma concat_snoc (names : list string) name :
  names <> [] ->
  String.concat "/" (names ++ [name]) = String.concat "/" names ++ String "/" name.
Proof.
  induction names as [|x [|y l] IH]; [done|done|]. intros _.
  change ((x :: y :: l) ++ [name])%list with (x :: y :: (l ++ [name]))%list.
  rewrite !concat_cons_cons.
  change (y :: (l ++ [name]))%list with ((y :: l) ++ [name])%list.
  rewrite IH by done. induction x as [|c x IHx]; [done|].
  by rewrite !append_cons, IHx.
Qed.

Lemma concat_is_tidy (names : list string) :
  names <> [] -> Forall plain_name names -> tidy (String.concat "/" names).
Proof.
  induction names as [|x [|y l] IH]; [done| |].
  - intros _ [(? & ? & _) _]%Forall_cons. by apply name_is_tidy.
  - intros _ [(? & ? & _) Hrest]%Forall_cons. rewrite concat_cons_cons.
    apply tidy_app; [by apply name_is_tidy|by apply IH].
Qed.

Lemma lstrip_slash_tidy s : starts_with_slash s = false -> lstrip_slash s = s.
Proof. destruct s as [|c s]; [done|]. cbn. by intros ->. Qed.

Lemma rstrip_slash_tidy s : ends_with_slash s = false -> rstrip_slash s = s.
Proof.
  induction s as [|c s IH]; [done|]. destruct s as [|c' s].
  - cbn. by intros ->.
  - rewrite ends_with_slash_cons by done. intros Hs.
    change (rstrip_slash (String c (String c' s)))
      with (match rstrip_slash (String c' s) with
            | EmptyString => if is_slash c then EmptyString else String c EmptyString
            | kept => String c kept
            end).
    by rewrite IH.
Qed.

Lemma strip_slash_tidy s : tidy s -> strip_slash s = s.
Proof.
  intros (_ & Hs & He & _). unfold strip_slash.
  by rewrite lstrip_slash_tidy, rstrip_slash_tidy.
Qed.

Lemma replace_double_slash_tidy s :
  has_double_slash s = false -> replace_double_slash s = s.
Proof.
  induction s as [|c s IH]; [done|]. destruct s as [|c' s]; [done|].
  intros Hs. cbn [has_double_slash starts_with_slash] in Hs, IH.
  apply orb_false_iff in Hs as [Hcc Hs].
  rewrite replace_double_slash_cons, Hcc. by rewrite IH.
Qed.

Lemma strip_path_of_names names :
  Forall plain_name names ->
  strip_slash (path_of_names names) = String.concat "/" names.
Proof.
  intros Hnames. destruct names as [|x [|y l]]; [done| |].
  - apply Forall_cons in Hnames as [(? & ? & _) _].
    change (strip_slash (path_of_names [x])) with (strip_slash x).
    by apply strip_slash_tidy, name_is_tidy.
  - change (strip_slash (path_of_names (x :: y :: l)))
      with (strip_slash (String.concat "/" (x :: y :: l))).
    by apply strip_slash_tidy, concat_is_tidy.
Qed.

(** The path of an entry is the path of the names that lead to it. *)
Lemma child_path_of_names names name :
  Forall plain_name names -> plain_name name ->
  "/" ++ replace_double_slash (join "/" [strip_slash (path_of_names names); name])
  = path_of_names (names ++ [name]).
Proof.
  intros Hnames Hname. rewrite strip_path_of_names by done.
  pose proof Hname as (Hne & Hslash & _).
  pose proof (name_is_tidy name Hne Hslash) as (_ & Hs & _ & Hd).
  rewrite append_cons, append_empty. unfold join.
  destruct names as [|x l].
  - cbn [String.concat app path_of_names]. rewrite append_empty, append_cons, append_empty.
    rewrite replace_double_slash_tidy; [done|]. cbn. by rewrite Hs, Hd.
  - change (String.concat "/" [String.concat "/" (x :: l); name])
      with (String.concat "/" (x :: l) ++ String "/" name).
    rewrite <- concat_snoc by done.
    assert (Forall plain_name ((x :: l) ++ [name])) as Hall
      by (apply Forall_app; split; [done|by constructor]).
    rewrite replace_double_slash_tidy
      by (by apply concat_is_tidy in Hall as (_ & _ & _ & ?)).
    by destruct l.
Qed.

Lemma walk_entries_shape recurse names directory :
  Forall plain_name names ->
  (forall name, plain_name name ->
     forall p, p ∈ fst (recurse (path_of_names (names ++ [name]))) ->
     exists more, more <> [] /\ Forall plain_name more
                  /\ p = path_of_names ((names ++ [name]) ++ more)) ->
  (forall entry info name,
     entry ∈ directory -> entry_info entry = Some info -> info_name info = Some name ->
     filtered_name name = false -> name <> EmptyString /\ contains_slash name = false) ->
  forall p, p ∈ fst (walk_entries recurse (path_of_names names) directory) ->
  exists more, more <> [] /\ Forall plain_name more /\ p = path_of_names (names ++ more).
Proof.
  intros Hnames Hrec. induction directory as [|entry rest IH]; intros Hplain p; cbn.
  { by intros ?%elem_of_nil. }
  assert (p ∈ fst (walk_entries recurse (path_of_names names) rest) ->
          exists more, more <> [] /\ Forall plain_name more
                       /\ p = path_of_names (names ++ more)) as Hrest.
  { apply IH. intros e i n He. apply Hplain. by right. }
  destruct (entry_info entry) as [info|] eqn:Hinfo; [|done].
  destruct (info_name info) as [name|] eqn:Hname; [|done].
  destruct (filtered_name name) eqn:Hkept; [done|].
  assert (plain_name name) as Hpn.
  { destruct (Hplain entry info name) as [? ?]; [by left|done..|]. by repeat split. }
  change (strip_slash (path_of_names names) +:+ "/" +:+ name)
    with (join "/" [strip_slash (path_of_names names); name]).
  rewrite child_path_of_names by done.
  destruct (is_directory info).
  - intros [Hp|Hp]%yield_from_fst; [|by apply Hrest].
    destruct (Hrec name Hpn p Hp) as (more & Hmore & Hall & ->).
    exists (name :: more). split; [done|]. split; [by constructor|].
    by rewrite <- app_assoc.
  - cbn. intros [->|Hp]%elem_of_cons; [|by apply Hrest].
    exists [name]. split; [done|]. split; [by constructor|done].
Qed.

Lemma walk_fs_shape depth fs : plain_names fs -> forall names,
  Forall plain_name names ->
  forall p, p ∈ fst (walk_fs depth fs (path_of_names names)) ->
  exists more, more <> [] /\ Forall plain_name more /\ p = path_of_names (names ++ more).
Proof.
  intros Hfs. induction depth as [|depth IH]; intros names Hnames p; cbn.
  { by intros ?%elem_of_nil. }
  destruct (open_dir fs (path_of_names names)) as [directory|e] eqn:Hdir.
  - apply walk_entries_shape; [done| |].
    + intros name Hname. apply IH. apply Forall_app. split; [done|by constructor].
    + intros entry info name ? ? ? ?. by eapply Hfs.
  - destruct e; cbn; by intros ?%elem_of_nil.
Qed.

(** X3 -- The shape of the paths: when the kept names are not empty and
    hold no separator, every path that the walk from the root yields, and
    so the [file_path] of every Finding of the scan, is the path of a
    non-empty chain of such names: [//name] for an entry of the root, with
    the separator doubled, and [/name/../name], with single separators,
    for a deeper entry. *)
Theorem yielded_path_shape depth fs :
  plain_names fs ->
  (forall p, p ∈ fst (walk_fs depth fs "/") ->
     exists names, names <> [] /\ Forall plain_name names /\ p = path_of_names names)
  /\ (forall hashes partition_offset w f,
        f ∈ returned (search_filesystem depth fs hashes partition_offset w) ->
        exists names, names <> [] /\ Forall plain_name names
                      /\ file_path f = path_of_names names).
Proof.
  intros Hfs.
  assert (forall p, p ∈ fst (walk_fs depth fs "/") ->
            exists names, names <> [] /\ Forall plain_name names
                          /\ p = path_of_names names) as Hwalk.
  { intros p Hp. by apply (walk_fs_shape depth fs Hfs [] (Forall_nil_2 _)). }
  split; [done|].
  intros hashes partition_offset w f (p & Hp & Hfind)%search_filesystem_found.
  apply finding_of_Some in Hfind as (? & ? & ? & ? & ? & _ & _ & ->). cbn.
  by apply Hwalk.
Qed.

Lemma nested_fs_plain_names : plain_names nested_fs.
Proof.
  intros path directory entry info name Hdir Hin Hinfo Hname _. cbn in Hdir.
  destruct (String.eqb path "/").
  - injection Hdir as <-. apply list_elem_of_singleton in Hin as ->.
    cbn in Hinfo. injection Hinfo as <-. cbn in Hname. by injection Hname as <-.
  - destruct (String.eqb path "//d"); [|done].
    injection Hdir as <-. apply list_elem_of_singleton in Hin as ->.
    cbn in Hinfo. injection Hinfo as <-. cbn in Hname. by injection Hname as <-.
Qed.

Lemma yielded_path_shape_witness :
  (plain_names nested_fs /\ "/d/x" ∈ fst (walk_fs 2 nested_fs "/"))
  /\ exists names, names <> [] /\ Forall plain_name names /\ "/d/x" = path_of_names names.
Proof.
  assert ("/d/x" ∈ fst (walk_fs 2 nested_fs "/")) as Hin by left.
  split; [split; [exact nested_fs_plain_names|exact Hin]|].
  exact (proj1 (yielded_path_shape 2 nested_fs nested_fs_plain_names) "/d/x" Hin).
Defined.

(** ** The path and the name of a Finding *)

Lemma walk_entries_absolute recurse path directory :
  (forall path' p, p ∈ fst (recurse path') -> starts_with_slash p = true) ->
  forall p, p ∈ fst (walk_entries recurse path directory) -> starts_with_slash p = true.
Proof.
  intros Hrec. induction directory as [|entry rest IH]; intros p; cbn.
  { by intros ?%elem_of_nil. }
  destruct (entry_info entry) as [info|]; [|by apply IH].
  destruct (info_name info) as [name|]; [|by apply IH].
  destruct (filtered_name name); [by apply IH|].
  destruct (is_directory info).
  - intros [Hp|Hp]%yield_from_fst; [by eapply Hrec|by apply IH].
  - cbn. intros [->|Hp]%elem_of_cons; [done|by apply IH].
Qed.

Lemma walk_fs_absolute depth fs : forall path p,
  p ∈ fst (walk_fs depth fs path) -> starts_with_slash p = true.
Proof.
  induction depth as [|depth IH]; intros path p; cbn.
  { by intros ?%elem_of_nil. }
  destruct (open_dir fs path) as [directory|e].
  - by apply walk_entries_absolute.
  - destruct e; cbn; by intros ?%elem_of_nil.
Qed.

Lemma split_slash_two s :
  contains_slash s = true ->
  exists first second others, split_slash s = first :: second :: others.
Proof.
  induction s as [|c s IH]; [done|]. rewrite split_slash_String. cbn [contains_slash].
  destruct (is_slash c); cbn [orb].
  - intros _. destruct (split_slash_cons s) as (first & others & ->). by eexists _, _, _.
  - intros (first & second & others & ->)%IH. by eexists _, _, _.
Qed.

Lemma last_cons_cons {A} (x y : A) l d : List.last (x :: y :: l) d = List.last (y :: l) d.
Proof. reflexivity. Qed.

(** A path with a separator ends with a separator followed by its last
    component. *)
Lemma last_component s d :
  contains_slash s = true ->
  exists dir, s = dir ++ String "/" (List.last (split_slash s) d).
Proof.
  induction s as [|c s IH]; [done|]. rewrite split_slash_String. cbn [contains_slash].
  destruct (contains_slash s) eqn:Hs.
  - intros _. destruct (IH eq_refl) as (dir & Hdir).
    destruct (split_slash_two s Hs) as (first & second & others & Hsplit).
    exists (String c dir). rewrite append_cons. f_equal.
    rewrite Hsplit in Hdir |- *. rewrite last_cons_cons in Hdir.
    destruct (is_slash c); by rewrite !last_cons_cons.
  - rewrite orb_false_r. intros Hc. rewrite Hc.
    rewrite split_slash_name by done. apply is_slash_eq in Hc as ->.
    by exists EmptyString.
Qed.

Lemma split_slash_no_slash s :
  Forall (fun component => contains_slash component = false) (split_slash s).
Proof.
  induction s as [|c s IH]; [by constructor|]. rewrite split_slash_String.
  destruct (is_slash c) eqn:Hc; [by constructor|].
  destruct (split_slash_cons s) as (first & others & Hsplit). rewrite Hsplit in IH |- *.
  apply Forall_cons in IH as [? ?]. constructor; [|done]. cbn. by rewrite Hc.
Qed.

(** X4 -- The path and the name of a Finding: the [file_path] of every
    Finding is absolute, its [file_name] holds no separator, and the path
    ends with a separator followed by the name. *)
Theorem finding_path_and_name depth pytsk3 image_path hashes w f :
  f ∈ returned (search_image_for_hashes depth pytsk3 image_path hashes w) ->
  starts_with_slash (file_path f) = true
  /\ contains_slash (file_name f) = false
  /\ exists dir, file_path f = dir ++ String "/" (file_name f).
Proof.
  unfold returned.
  destruct (search_image_run depth pytsk3 image_path hashes w) as (l & w' & -> & Hall).
  cbn. intros Hf.
  destruct (Hall f Hf) as (img & offset & fs & _ & _ & (path & Hpath & Hfind) & _).
  apply finding_of_Some in Hfind as (? & ? & ? & ? & ? & _ & _ & ->). cbn.
  apply walk_fs_absolute in Hpath as Habs. split; [done|].
  assert (contains_slash path = true) as Hslash.
  { destruct path as [|c rest]; [done|]. cbn in Habs |- *. by rewrite Habs. }
  unfold name_of_path. rewrite Hslash.
  destruct (last_component path path Hslash) as (dir & Hdir).
  split; [|by exists dir].
  destruct (split_slash_two path Hslash) as (first & second & others & Hsplit).
  rewrite Hsplit, last_cons_cons.
  pose proof (split_slash_no_slash path) as Hno. rewrite Hsplit in Hno.
  apply Forall_cons in Hno as [_ Hno]. clear Hsplit Hdir.
  revert second Hno. induction others as [|y more IH]; intros second Hno.
  - by apply Forall_cons in Hno as [? _].
  - rewrite last_cons_cons. apply IH. by apply Forall_cons in Hno as [_ ?].
Qed.

Lemma finding_path_and_name_witness :
  finding_b "//b.txt" (Some 2048%Z)
    ∈ returned (search_image_for_hashes recursion_limit
                  (library "disk.img" two_partitions) "disk.img" {[ h1; h2 ]} world0)
  /\ (starts_with_slash (file_path (finding_b "//b.txt" (Some 2048%Z))) = true
      /\ contains_slash (file_name (finding_b "//b.txt" (Some 2048%Z))) = false
      /\ exists dir,
           file_path (finding_b "//b.txt" (Some 2048%Z))
           = dir ++ String "/" (file_name (finding_b "//b.txt" (Some 2048%Z)))).
Proof.
  assert (finding_b "//b.txt" (Some 2048%Z)
            ∈ returned (search_image_for_hashes recursion_limit
                          (library "disk.img" two_partitions) "disk.img"
                          {[ h1; h2 ]} world0)) as Hin.
  { assert (returned (search_image_for_hashes recursion_limit
                        (library "disk.img" two_partitions) "disk.img"
                        {[ h1; h2 ]} world0)
            = [finding_a "//a.txt" (Some 0%Z); finding_b "//b.txt" (Some 2048%Z)]) as ->
      by (vm_compute; reflexivity).
    right. left. }
  split; [exact Hin|].
  exact (finding_path_and_name recursion_limit (library "disk.img" two_partitions)
           "disk.img" {[ h1; h2 ]} world0 (finding_b "//b.txt" (Some 2048%Z)) Hin).
Defined.

(** * Further properties of the scan of a filesystem *)

(** ** The trace of a file *)

Ltac close_trace :=
  cbn;
  repeat match goal with H : file_meta _ = _ |- _ => rewrite H end;
  cbn; eexists; split; [reflexivity|]; cbn; rewrite <- ?app_assoc; cbn.

Lemma try_body_trace fs hashes partition_offset st path w :
  exists w',
    try_except (try_body fs hashes partition_offset st path)
      (fun e => logger WARNING (Error_processing_file path e) ;;; ret st) w
    = (Ok (with_finding (finding_of fs hashes partition_offset path) st), w')
    /\ clock w' = clock w /\ reads w' = reads w
    /\ trace w' = (trace w ++ file_trace fs hashes path)%list.
Proof.
  unfold try_except, try_body, finding_of, examined, file_trace, times_of, content_read,
    declared_size, name_of_path, logger, bind, lift, emit, ret.
  destruct (open fs path) as [file_obj|e] eqn:Ho; cbn; [|by close_trace].
  destruct (file_meta file_obj) as [meta|] eqn:Hm; cbn; rewrite ?Hm; cbn;
    rewrite ?extract_time_run.
  2: { destruct (bool_decide _); by close_trace. }
  destruct (time_of (meta_crtime meta)) as [c|e]; cbn; rewrite ?Hm; cbn;
    rewrite ?extract_time_run; [|by close_trace].
  destruct (time_of (meta_mtime meta)) as [m|e]; cbn; rewrite ?Hm; cbn;
    rewrite ?extract_time_run; [|by close_trace].
  destruct (time_of (meta_atime meta)) as [a|e]; cbn; rewrite ?Hm; cbn; [|by close_trace].
  destruct (meta_size meta =? 0)%Z; cbn.
  - destruct (bool_decide _); by close_trace.
  - destruct (read_random file_obj 0 (meta_size meta)) as [data|e]; cbn; [|by close_trace].
    destruct (bool_decide _); by close_trace.
Qed.

Lemma count_cons kind ev t :
  count kind (ev :: t) = ((if kind ev then 1 else 0) + count kind t)%nat.
Proof. unfold count. cbn. by destruct (kind ev). Qed.

Lemma with_finding_matches o st :
  matches_found (with_finding o st)
  = (matches_found st + Z.of_nat (length (option_list o)))%Z.
Proof. destruct o; cbn; lia. Qed.

Section Trace.
Variables (fs : FS) (hashes : gset string) (partition_offset : option Z).
Variables (progress_interval start_time : Q).

Lemma iteration_trace st path w st' w' :
  iteration fs hashes partition_offset progress_interval start_time st path w
  = (Ok st', w') ->
  matches_found st'
  = (matches_found st
     + Z.of_nat (length (option_list (finding_of fs hashes partition_offset path))))%Z
  /\ exists progress,
       trace w' = (trace w ++ file_trace fs hashes path ++ progress)%list
       /\ Forall (fun ev => is_progress_log ev = true) progress.
Proof.
  destruct (try_body_trace fs hashes partition_offset st path w)
    as (w1 & Hrun & _ & _ & Htrace).
  unfold iteration, bind at 1. rewrite Hrun.
  unfold bind at 1, time_time at 1.
  destruct (Qle_bool _ _); cbn.
  - unfold py_div, bind, raise, ret, logger, emit.
    destruct (Qeq_bool _ _); cbn; [done|]. intros [= <- <-]. cbn.
    split; [apply with_finding_matches|].
    eexists [_]. rewrite Htrace, <- app_assoc. split; [done|]. by repeat constructor.
  - unfold ret. intros [= <- <-]. cbn. split; [apply with_finding_matches|].
    exists []. by rewrite Htrace, app_nil_r.
Qed.

(** A kind of event that is not a progress report is counted file by file. *)
Lemma for_each_trace (kind : event -> bool) yielded :
  (forall ev, is_progress_log ev = true -> kind ev = false) ->
  forall st w st' w',
  for_each (iteration fs hashes partition_offset progress_interval start_time)
    yielded st w = (Ok st', w') ->
  matches_found st'
  = (matches_found st
     + Z.of_nat (length (omap (finding_of fs hashes partition_offset) yielded)))%Z
  /\ exists added,
       trace w' = (trace w ++ added)%list
       /\ count kind added = count kind (flat_map (file_trace fs hashes) yielded).
Proof.
  intros Hkind. induction yielded as [|path rest IH]; intros st w st' w' Hrun; cbn in Hrun.
  - unfold ret in Hrun. simplify_eq. cbn. split; [lia|]. exists []. by rewrite app_nil_r.
  - unfold bind in Hrun.
    destruct (iteration _ _ _ _ _ st path w) as [[st1|e] w1] eqn:Hit; [|done].
    apply iteration_trace in Hit as (Hm1 & progress & Ht1 & Hprogress).
    apply IH in Hrun as (Hm & added & Ht & Hcount).
    split.
    + rewrite Hm, Hm1. cbn [omap list_omap].
      destruct (finding_of _ _ _ path); cbn; lia.
    + exists (file_trace fs hashes path ++ progress ++ added)%list.
      rewrite Ht, Ht1, <- !app_assoc. split; [done|].
      cbn [flat_map]. rewrite !count_app, Hcount.
      assert (count kind progress = 0%nat) as ->; [|lia].
      clear Ht1. induction Hprogress as [|ev l Hev _ IHl]; [done|].
      by rewrite count_cons, (Hkind ev Hev), IHl.
Qed.

End Trace.

Lemma file_trace_counted fs hashes partition_offset path :
  count is_processing_log (file_trace fs hashes path) = 1%nat
  /\ count is_match_log (file_trace fs hashes path)
     = length (option_list (finding_of fs hashes partition_offset path))
  /\ count is_warning_log (file_trace fs hashes path)
     = (if fails_to_examine fs path then 1 else 0)%nat.
Proof.
  unfold file_trace, finding_of, fails_to_examine, examined, count.
  destruct (open fs path) as [file_obj|e]; [|done].
  destruct (times_of file_obj) as [[[c m] a]|e]; [|done].
  destruct (declared_size file_obj =? 0)%Z, (content_read file_obj) as [data|e];
    try done; by destruct (bool_decide _).
Qed.

Lemma flat_map_counted fs hashes partition_offset yielded :
  count is_processing_log (flat_map (file_trace fs hashes) yielded) = length yielded
  /\ count is_match_log (flat_map (file_trace fs hashes) yielded)
     = length (omap (finding_of fs hashes partition_offset) yielded)
  /\ count is_warning_log (flat_map (file_trace fs hashes) yielded)
     = length (List.filter (fails_to_examine fs) yielded).
Proof.
  induction yielded as [|path rest (IHp & IHm & IHw)]; [done|].
  cbn [flat_map List.filter]. rewrite !count_app, IHp, IHm, IHw.
  destruct (file_trace_counted fs hashes partition_offset path) as (-> & -> & ->).
  cbn [omap list_omap].
  destruct (finding_of fs hashes partition_offset path), (fails_to_examine fs path);
    cbn; lia.
Qed.

(** X5 -- The log accounts for the scan: when a scan returns, it has
    logged one line for each yielded file, one match for each Finding and
    one warning for each file that could not be examined, and its last
    line reports the number of yielded files as processed and the number
    of Findings as matches. *)
Theorem log_accounts_for_the_scan depth fs hashes partition_offset w l :
  fst (search_filesystem depth fs hashes partition_offset w) = Ok l ->
  exists added total_time avg_rate,
    trace (snd (search_filesystem depth fs hashes partition_offset w))
    = (trace w ++ added
       ++ [Log INFO (Search_completed (Z.of_nat (length (fst (walk_fs depth fs "/"))))
                       (Z.of_nat (length l)) total_time avg_rate)])%list
    /\ count is_processing_log added = length (fst (walk_fs depth fs "/"))
    /\ count is_match_log added = length l
    /\ count is_warning_log added
       = length (List.filter (fails_to_examine fs) (fst (walk_fs depth fs "/"))).
Proof.
  destruct (search_filesystem depth fs hashes partition_offset w) as [r w'] eqn:Hrun.
  cbn [fst snd]. intros ->.
  pose proof Hrun as (_ & Hl & _)%search_filesystem_returns.
  revert Hrun. unfold search_filesystem.
  unfold bind at 1, time_time at 1. unfold bind at 1, time_time at 1.
  unfold bind at 1, logger at 1, emit at 1. cbn [clock reads trace].
  unfold bind at 1.
  destruct (for_each _ _ _ _) as [[st|e] w1] eqn:Hloop; [|done].
  pose proof Hloop as (_ & Hprocessed & _)%for_each_returns.
  destruct (snd (walk_fs depth fs "/")) as [e|]; [done|].
  unfold bind at 1, time_time at 1. unfold bind at 1.
  rewrite final_rate_run. unfold bind, logger, emit, ret. intros [= _ <-]. cbn [trace].
  assert (forall kind, (forall ev, is_progress_log ev = true -> kind ev = false) ->
            kind (Log INFO Starting_filesystem_search) = false ->
            exists added,
              trace w1 = (trace w ++ added)%list
              /\ count kind added
                 = count kind (flat_map (file_trace fs hashes) (fst (walk_fs depth fs "/"))))
    as Hkinds.
  { intros kind Hkind Hstart.
    destruct (for_each_trace fs hashes partition_offset 1 _ kind _ Hkind _ _ _ _ Hloop)
      as (_ & added & Ht & Hcount). cbn [trace] in Ht.
    exists (Log INFO Starting_filesystem_search :: added).
    rewrite Ht, <- app_assoc. split; [done|]. by rewrite count_cons, Hstart. }
  destruct (for_each_trace fs hashes partition_offset 1 _ is_match_log _
              ltac:(by intros [| | |[] []]) _ _ _ _ Hloop) as (Hmatches & _).
  cbn [matches_found processed_files] in Hmatches, Hprocessed.
  destruct (Hkinds is_processing_log ltac:(by intros [| | |[] []]) eq_refl)
    as (added & Ht & Hp).
  destruct (Hkinds is_match_log ltac:(by intros [| | |[] []]) eq_refl)
    as (added' & Ht' & Hm).
  destruct (Hkinds is_warning_log ltac:(by intros [| | |[] []]) eq_refl)
    as (added'' & Ht'' & Hw).
  assert (added' = added) as -> by (rewrite Ht in Ht'; by apply app_inv_head in Ht').
  assert (added'' = added) as -> by (rewrite Ht in Ht''; by apply app_inv_head in Ht'').
  destruct (flat_map_counted fs hashes partition_offset (fst (walk_fs depth fs "/")))
    as (Hcp & Hcm & Hcw).
  eexists added, _, _. rewrite Ht, <- app_assoc.
  rewrite Hprocessed, Hmatches, Hl, Z.add_0_l, Z.add_0_l.
  split; [done|]. by rewrite Hp, Hm, Hw, Hcp, Hcm, Hcw.
Qed.

Lemma log_accounts_for_the_scan_witness :
  fst (search_filesystem recursion_limit (tree_fs two_files) {[ h1 ]} None world0)
  = Ok [finding_a "//a.txt" None]
  /\ exists added total_time avg_rate,
       trace (snd (search_filesystem recursion_limit (tree_fs two_files) {[ h1 ]}
                     None world0))
       = (trace world0 ++ added
          ++ [Log INFO (Search_completed
                          (Z.of_nat (length (fst (walk_fs recursion_limit
                                                    (tree_fs two_files) "/"))))
                          (Z.of_nat (length [finding_a "//a.txt" None]))
                          total_time avg_rate)])%list
       /\ count is_processing_log added
          = length (fst (walk_fs recursion_limit (tree_fs two_files) "/"))
       /\ count is_match_log added = length [finding_a "//a.txt" None]
       /\ count is_warning_log added
          = length (List.filter (fails_to_examine (tree_fs two_files))
                      (fst (walk_fs recursion_limit (tree_fs two_files) "/"))).
Proof.
  assert (fst (search_filesystem recursion_limit (tree_fs two_files) {[ h1 ]} None world0)
          = Ok [finding_a "//a.txt" None]) as Hrun by (vm_compute; reflexivity).
  split; [exact Hrun|].
  exact (log_accounts_for_the_scan recursion_limit (tree_fs two_files) {[ h1 ]} None
           world0 [finding_a "//a.txt" None] Hrun).
Defined.

(** ** How a scan fails *)

(** X6 -- A walk that fails aborts the scan after its files: when the walk
    ends with an exception and the clock has left [start_time] at every
    later reading, so that the periodic report cannot divide by zero,
    every file yielded before is still opened, read and hashed, and then
    the scan raises the exception of the walk instead of returning. *)
Theorem walk_failure_aborts_the_scan depth fs hashes partition_offset w yielded e :
  walk_fs depth fs "/" = (yielded, Some e) ->
  advances w ->
  fst (search_filesystem depth fs hashes partition_offset w) = Raise e
  /\ calls (trace (snd (search_filesystem depth fs hashes partition_offset w)))
     = (calls (trace w) ++ flat_map (calls_of fs) yielded)%list.
Proof.
  intros Hwalk Hclock.
  destruct (search_filesystem depth fs hashes partition_offset w) as [r w'] eqn:Hrun.
  cbn [fst snd]. revert Hrun. unfold search_filesystem.
  unfold bind at 1, time_time at 1. unfold bind at 1, time_time at 1.
  unfold bind at 1, logger at 1, emit at 1. cbn [clock reads trace].
  unfold bind at 1. rewrite Hwalk. cbn [fst snd].
  match goal with |- context [for_each ?b ?ys ?st ?w0] =>
    destruct (for_each_benign fs hashes partition_offset 1 (clock w (S (reads w)))
                yielded st w0) as (st' & w1 & Hloop)
  end.
  { cbn [clock reads]. intros n Hn. apply Hclock. lia. }
  rewrite Hloop. unfold raise. intros [= <- <-]. split; [done|].
  apply for_each_returns in Hloop as (_ & _ & _ & _ & ->). cbn [trace].
  rewrite calls_app. cbn. by rewrite app_nil_r.
Qed.

Lemma walk_failure_aborts_the_scan_witness :
  (walk_fs recursion_limit (failing_subdirectory RuntimeError) "/"
   = (["//a.txt"], Some RuntimeError)
   /\ advances world0)
  /\ fst (search_filesystem recursion_limit (failing_subdirectory RuntimeError)
            {[ h1 ]} None world0) = Raise RuntimeError
  /\ calls (trace (snd (search_filesystem recursion_limit
                          (failing_subdirectory RuntimeError) {[ h1 ]} None world0)))
     = (calls (trace world0)
        ++ flat_map (calls_of (failing_subdirectory RuntimeError)) ["//a.txt"])%list.
Proof.
  assert (walk_fs recursion_limit (failing_subdirectory RuntimeError) "/"
          = (["//a.txt"], Some RuntimeError)) as Hwalk by (vm_compute; reflexivity).
  split; [split; [exact Hwalk|exact world0_advances]|].
  exact (walk_failure_aborts_the_scan recursion_limit (failing_subdirectory RuntimeError)
           {[ h1 ]} None world0 ["//a.txt"] RuntimeError Hwalk world0_advances).
Defined.

Lemma for_each_raises fs hashes partition_offset progress_interval start_time yielded :
  forall st w e w',
  for_each (iteration fs hashes partition_offset progress_interval start_time)
    yielded st w = (Raise e, w') ->
  e = ZeroDivisionError.
Proof.
  induction yielded as [|path rest IH]; intros st w e w'; cbn; [done|].
  destruct (iteration_run fs hashes partition_offset progress_interval start_time
              st path w) as (w1 & Hit & _).
  unfold bind. rewrite Hit. destruct (report_fails _ _ _ _); [by intros [= <- _]|].
  apply IH.
Qed.

(** X7 -- What a scan can raise: no failure on a file ever leaves the
    scan; a scan raises only the exception that ends the walk, or the
    [ZeroDivisionError] of the periodic report, and it returns whatever
    the clock when the walk returns without a file. *)
Theorem scan_failures depth fs hashes partition_offset w :
  (forall e,
     fst (search_filesystem depth fs hashes partition_offset w) = Raise e ->
     snd (walk_fs depth fs "/") = Some e \/ e = ZeroDivisionError)
  /\ (walk_fs depth fs "/" = ([], None) ->
      fst (search_filesystem depth fs hashes partition_offset w) = Ok []).
Proof.
  destruct (search_filesystem depth fs hashes partition_offset w) as [r w'] eqn:Hrun.
  cbn [fst]. revert Hrun. unfold search_filesystem.
  unfold bind at 1, time_time at 1. unfold bind at 1, time_time at 1.
  unfold bind at 1, logger at 1, emit at 1. cbn [clock reads trace].
  unfold bind at 1. intros Hrun. split.
  - intros e ->. revert Hrun.
    destruct (for_each _ _ _ _) as [[st|e'] w1] eqn:Hloop.
    + destruct (snd (walk_fs depth fs "/")) as [e'|]; [intros [= <- _]; by left|].
      unfold bind at 1, time_time at 1. unfold bind at 1.
      rewrite final_rate_run. by unfold bind, logger, emit, ret.
    + apply for_each_raises in Hloop as ->. intros [= <- _]. by right.
  - intros Hwalk. revert Hrun. rewrite Hwalk. cbn [fst snd for_each]. unfold ret at 1.
    unfold bind at 1, time_time at 1. unfold bind at 1.
    rewrite final_rate_run. unfold bind, logger, emit, ret. by intros [= <- _].
Qed.

Lemma scan_failures_witness :
  (fst (search_filesystem recursion_limit (tree_fs two_files) {[ h1 ]} None stalled_world)
   = Raise ZeroDivisionError
   /\ (snd (walk_fs recursion_limit (tree_fs two_files) "/") = Some ZeroDivisionError
       \/ ZeroDivisionError = ZeroDivisionError))
  /\ (walk_fs recursion_limit (tree_fs (Folder EmptyString [])) "/" = ([], None)
      /\ fst (search_filesystem recursion_limit (tree_fs (Folder EmptyString []))
                {[ h1 ]} None stalled_world) = Ok []).
Proof.
  assert (fst (search_filesystem recursion_limit (tree_fs two_files) {[ h1 ]} None
                 stalled_world) = Raise ZeroDivisionError) as Hrun
    by (vm_compute; reflexivity).
  assert (walk_fs recursion_limit (tree_fs (Folder EmptyString [])) "/" = ([], None))
    as Hwalk by (vm_compute; reflexivity).
  split.
  - split; [exact Hrun|].
    exact (proj1 (scan_failures recursion_limit (tree_fs two_files) {[ h1 ]} None
                    stalled_world) ZeroDivisionError Hrun).
  - split; [exact Hwalk|].
    exact (proj2 (scan_failures recursion_limit (tree_fs (Folder EmptyString []))
                    {[ h1 ]} None stalled_world) Hwalk).
Defined.

(** ** The metadata of a Finding *)

Lemma time_of_reported field r :
  time_of field = Ok r -> r = reported_time field.
Proof.
  unfold time_of, reported_time. destruct field as [t|]; [|by intros [= <-]].
  destruct (t =? 0)%Z; [by intros [= <-]|]. unfold fromtimestamp.
  repeat (destruct (_ || _); [done|]). by intros [= <-].
Qed.

Lemma times_of_reported file_obj times :
  times_of file_obj = Ok times -> times = reported_times file_obj.
Proof.
  unfold times_of, reported_times. destruct (file_meta file_obj) as [meta|];
    [|by intros [= <-]].
  destruct (time_of (meta_crtime meta)) as [c|] eqn:Hc; [|done].
  destruct (time_of (meta_mtime meta)) as [m|] eqn:Hm; [|done].
  destruct (time_of (meta_atime meta)) as [a|] eqn:Ha; [|done].
  apply time_of_reported in Hc as ->. apply time_of_reported in Hm as ->.
  apply time_of_reported in Ha as ->. by intros [= <-].
Qed.

(** X8 -- The size and the timestamps of a Finding are those of the
    metadata of its file: [file_size] is the declared size, and a
    timestamp is reported exactly when the attribute is present and not
    zero, so the epoch itself is never reported; a Finding of size zero
    carries the digest of the empty content. *)
Theorem finding_metadata depth pytsk3 image_path hashes w f :
  f ∈ returned (search_image_for_hashes depth pytsk3 image_path hashes w) ->
  exists img offset fs file_obj,
    Img_Info pytsk3 image_path = Ok img
    /\ FS_Info img offset = Ok fs
    /\ open fs (file_path f) = Ok file_obj
    /\ file_size f = declared_size file_obj
    /\ (created_time f, modified_time f, accessed_time f) = reported_times file_obj
    /\ (file_size f = 0%Z -> hash_value f = sha256_hexdigest []).
Proof.
  unfold returned.
  destruct (search_image_run depth pytsk3 image_path hashes w) as (l & w' & -> & Hall).
  cbn. intros Hf.
  destruct (Hall f Hf) as (img & offset & fs & Himg & Hfs & (path & _ & Hfind) & _).
  apply finding_of_Some in Hfind as (file_obj & c & m & a & data & Hex & _ & ->).
  apply examined_Ok in Hex as (Hopen & Htimes & Hread). cbn.
  exists img, offset, fs, file_obj. do 4 (split; [done|]).
  split; [by apply times_of_reported in Htimes|].
  intros Hsize. unfold content_read in Hread. rewrite Hsize in Hread. cbn in Hread.
  by injection Hread as <-.
Qed.

Lemma finding_metadata_witness :
  finding_a "//a.txt" None
    ∈ returned (search_image_for_hashes recursion_limit image_of_two_files "disk.img"
                  {[ h1 ]} world0)
  /\ exists img offset fs file_obj,
       Img_Info image_of_two_files "disk.img" = Ok img
       /\ FS_Info img offset = Ok fs
       /\ open fs (file_path (finding_a "//a.txt" None)) = Ok file_obj
       /\ file_size (finding_a "//a.txt" None) = declared_size file_obj
       /\ (created_time (finding_a "//a.txt" None),
           modified_time (finding_a "//a.txt" None),
           accessed_time (finding_a "//a.txt" None)) = reported_times file_obj
       /\ (file_size (finding_a "//a.txt" None) = 0%Z ->
           hash_value (finding_a "//a.txt" None) = sha256_hexdigest []).
Proof.
  assert (finding_a "//a.txt" None
            ∈ returned (search_image_for_hashes recursion_limit image_of_two_files
                          "disk.img" {[ h1 ]} world0)) as Hin.
  { rewrite search_of_two_files. left. }
  split; [exact Hin|].
  exact (finding_metadata recursion_limit image_of_two_files "disk.img" {[ h1 ]}
           world0 (finding_a "//a.txt" None) Hin).
Defined.

(** X9 -- A timestamp that cannot be converted: when the file opens and
    the conversion of one of its timestamps raises, the file is skipped
    with a warning before it is read; it is neither read nor hashed, and
    the locals of the loop are unchanged. *)
Theorem unconvertible_timestamp_skips_the_file fs hashes partition_offset st path w
    file_obj e :
  open fs path = Ok file_obj ->
  times_of file_obj = Raise e ->
  exists w',
    try_except (try_body fs hashes partition_offset st path)
      (fun e => logger WARNING (Error_processing_file path e) ;;; ret st) w
    = (Ok st, w')
    /\ trace w'
       = (trace w ++ [Log DEBUG (Processing_file path); Call_open path;
                      Log WARNING (Error_processing_file path e)])%list.
Proof.
  intros Hopen Htimes.
  destruct (try_body_trace fs hashes partition_offset st path w)
    as (w' & Hrun & _ & _ & Htrace).
  exists w'. unfold finding_of, examined in Hrun. unfold file_trace in Htrace.
  rewrite Hopen, Htimes in Hrun, Htrace. by split.
Qed.

Lemma unconvertible_timestamp_skips_the_file_witness :
  (open late_fs "//x" = Ok late_file /\ times_of late_file = Raise ValueError)
  /\ exists w',
       try_except (try_body late_fs {[ h1 ]} None locals0 "//x")
         (fun e => logger WARNING (Error_processing_file "//x" e) ;;; ret locals0) world0
       = (Ok locals0, w')
       /\ trace w'
          = (trace world0 ++ [Log DEBUG (Processing_file "//x"); Call_open "//x";
                              Log WARNING (Error_processing_file "//x" ValueError)])%list.
Proof.
  split; [split; reflexivity|].
  apply (unconvertible_timestamp_skips_the_file late_fs {[ h1 ]} None locals0 "//x"
           world0 late_file ValueError); reflexivity.
Defined.

(** * Further properties of the search of an image *)

(** ** Two scans at the same time *)

Lemma for_each_coupled fs hashes1 hashes2 offset1 offset2 progress_interval start_time
    yielded :
  forall st1 st2 w1 w2,
  same_time w1 w2 ->
  last_progress_time st1 = last_progress_time st2 ->
  match for_each (iteration fs hashes1 offset1 progress_interval start_time) yielded st1 w1,
        for_each (iteration fs hashes2 offset2 progress_interval start_time) yielded st2 w2
  with
  | (Ok _, w1'), (Ok _, w2') => same_time w1' w2'
  | (Raise e1, w1'), (Raise e2, w2') => e1 = e2 /\ same_time w1' w2'
  | _, _ => False
  end.
Proof.
  induction yielded as [|path rest IH]; intros st1 st2 w1 w2 [Hclock Hreads] Hlast; cbn.
  { done. }
  destruct (iteration_run fs hashes1 offset1 progress_interval start_time st1 path w1)
    as (w1' & Hit1 & Hc1 & Hr1 & _).
  destruct (iteration_run fs hashes2 offset2 progress_interval start_time st2 path w2)
    as (w2' & Hit2 & Hc2 & Hr2 & _).
  unfold bind. rewrite Hit1, Hit2.
  assert (same_time w1' w2') as Hsame.
  { split; congruence. }
  destruct w1 as [clock1 reads1 trace1], w2 as [clock2 reads2 trace2].
  cbn in Hclock, Hreads. subst clock2 reads2.
  unfold report_fails. cbn [clock reads]. rewrite Hlast.
  destruct (_ && _); [done|].
  apply IH; [done|]. cbn. by rewrite Hlast.
Qed.

(** A scan as the result of its loop. *)
Lemma search_filesystem_by_loop depth fs hashes partition_offset w :
  exists w0,
    clock w0 = clock w /\ reads w0 = S (S (reads w))
    /\ calls (trace w0) = calls (trace w)
    /\ match for_each (iteration fs hashes partition_offset 1 (clock w (S (reads w))))
               (fst (walk_fs depth fs "/"))
               {| findings := []; processed_files := 0; matches_found := 0;
                  last_progress_time := clock w (reads w) |} w0
       with
       | (Raise e, w3) =>
           search_filesystem depth fs hashes partition_offset w = (Raise e, w3)
       | (Ok st, w3) =>
           match snd (walk_fs depth fs "/") with
           | Some e => search_filesystem depth fs hashes partition_offset w = (Raise e, w3)
           | None =>
               exists w4,
                 search_filesystem depth fs hashes partition_offset w
                 = (Ok (findings st), w4)
                 /\ clock w4 = clock w3 /\ reads w4 = S (reads w3)
                 /\ calls (trace w4) = calls (trace w3)
           end
       end.
Proof.
  destruct (search_filesystem depth fs hashes partition_offset w) as [r w'] eqn:Hrun.
  revert Hrun. unfold search_filesystem.
  unfold bind at 1, time_time at 1. unfold bind at 1, time_time at 1.
  unfold bind at 1, logger at 1, emit at 1. cbn [clock reads trace].
  unfold bind at 1. intros Hrun.
  exists {| clock := clock w; reads := S (S (reads w));
            trace := trace w ++ [Log INFO Starting_filesystem_search] |}.
  split; [reflexivity|]. split; [reflexivity|].
  split; [cbn; rewrite calls_app; cbn; by rewrite app_nil_r|].
  destruct (for_each _ _ _ _) as [[st|e] w3]; [|done].
  destruct (snd (walk_fs depth fs "/")) as [e|]; [done|].
  revert Hrun. unfold bind at 1, time_time at 1. unfold bind at 1.
  rewrite final_rate_run. unfold bind, logger, emit, ret. intros [= <- <-].
  eexists. split; [reflexivity|]. cbn. split; [done|]. split; [done|].
  rewrite calls_app. cbn. by rewrite app_nil_r.
Qed.

(** Whether a scan returns or raises, and how often it reads the clock,
    does not depend on the target set, the tag or the trace. *)
Lemma search_filesystem_coupled depth fs hashes1 hashes2 offset1 offset2 w1 w2 :
  same_time w1 w2 ->
  match search_filesystem depth fs hashes1 offset1 w1,
        search_filesystem depth fs hashes2 offset2 w2
  with
  | (Ok _, w1'), (Ok _, w2') => same_time w1' w2'
  | (Raise e1, w1'), (Raise e2, w2') => e1 = e2 /\ same_time w1' w2'
  | _, _ => False
  end.
Proof.
  intros [Hclock Hreads].
  destruct (search_filesystem_by_loop depth fs hashes1 offset1 w1)
    as (w01 & Hc1 & Hr1 & _ & Hrun1).
  destruct (search_filesystem_by_loop depth fs hashes2 offset2 w2)
    as (w02 & Hc2 & Hr2 & _ & Hrun2).
  destruct w1 as [clock1 reads1 trace1], w2 as [clock2 reads2 trace2].
  cbn in Hclock, Hreads. subst clock2 reads2. cbn [clock reads] in *.
  assert (same_time w01 w02) as Hsame by (split; congruence).
  pose proof (for_each_coupled fs hashes1 hashes2 offset1 offset2 1
                (clock1 (S reads1)) (fst (walk_fs depth fs "/"))
                {| findings := []; processed_files := 0; matches_found := 0;
                   last_progress_time := clock1 reads1 |}
                {| findings := []; processed_files := 0; matches_found := 0;
                   last_progress_time := clock1 reads1 |}
                w01 w02 Hsame eq_refl) as Hloop.
  destruct (for_each _ _ _ w01) as [[st1|e1] w1'], (for_each _ _ _ w02) as [[st2|e2] w2'];
    try done.
  - destruct (snd (walk_fs depth fs "/")) as [e|].
    + by rewrite Hrun1, Hrun2.
    + destruct Hrun1 as (w41 & -> & Hc41 & Hr41 & _), Hrun2 as (w42 & -> & Hc42 & Hr42 & _).
      destruct Hloop as [? ?]. split; congruence.
  - by rewrite Hrun1, Hrun2.
Qed.

Lemma finding_of_subset fs hashes1 hashes2 partition_offset path :
  hashes1 ⊆ hashes2 ->
  finding_of fs hashes1 partition_offset path
  = match finding_of fs hashes2 partition_offset path with
    | Some f => if bool_decide (hash_value f ∈ hashes1) then Some f else None
    | None => None
    end.
Proof.
  intros Hsub. unfold finding_of.
  destruct (examined fs path) as [[[file_obj [[c m] a]] data]|e]; [|done].
  destruct (bool_decide (sha256_hexdigest data ∈ hashes1)) eqn:H1.
  - apply bool_decide_eq_true in H1 as Hin.
    rewrite (bool_decide_eq_true_2 _ (Hsub _ Hin)). cbn [hash_value]. by rewrite H1.
  - destruct (bool_decide (sha256_hexdigest data ∈ hashes2)); [|done].
    cbn [hash_value]. by rewrite H1.
Qed.

Lemma finding_of_matching fs hashes1 hashes2 partition_offset yielded :
  hashes1 ⊆ hashes2 ->
  omap (finding_of fs hashes1 partition_offset) yielded
  = matching hashes1 (omap (finding_of fs hashes2 partition_offset) yielded).
Proof.
  intros Hsub. induction yielded as [|path rest IH]; [done|].
  cbn [omap list_omap]. rewrite (finding_of_subset fs hashes1 hashes2) by done.
  destruct (finding_of fs hashes2 partition_offset path) as [f|]; [|done].
  unfold matching in *. cbn [List.filter].
  destruct (bool_decide (hash_value f ∈ hashes1)); by rewrite IH.
Qed.

Lemma matching_app hashes l1 l2 :
  matching hashes (l1 ++ l2) = (matching hashes l1 ++ matching hashes l2)%list.
Proof. apply List.filter_app. Qed.

(** One turn of the loop over the partitions. *)
Lemma for_each_partition_step depth img volume hashes partition rest all_findings w :
  for_each_partition depth img volume hashes (partition :: rest) all_findings w
  = match FS_Info img (start partition * block_size volume) with
    | Ok fs =>
        match search_filesystem depth fs hashes (Some (start partition))
                (snd (logger INFO (Searching_partition (start partition)) w))
        with
        | (Ok l, w1) =>
            for_each_partition depth img volume hashes rest (all_findings ++ l)%list w1
        | (Raise e, w1) =>
            for_each_partition depth img volume hashes rest all_findings
              (snd (logger ERROR (Could_not_access_filesystem (start partition) e) w1))
        end
    | Raise e =>
        for_each_partition depth img volume hashes rest all_findings
          (snd (logger ERROR (Could_not_access_filesystem (start partition) e)
                  (snd (logger INFO (Searching_partition (start partition)) w))))
    end.
Proof.
  cbn [for_each_partition].
  unfold bind at 1, logger at 1, emit at 1.
  unfold bind at 1, try_except at 1. unfold bind at 1, lift at 1.
  destruct (FS_Info img (start partition * block_size volume)) as [fs|e]; [|done].
  unfold bind at 1. cbn [logger emit snd].
  by destruct (search_filesystem _ _ _ _ _) as [[l|e] w1].
Qed.

Lemma same_time_logger lvl1 msg1 lvl2 msg2 w1 w2 :
  same_time w1 w2 -> same_time (snd (logger lvl1 msg1 w1)) (snd (logger lvl2 msg2 w2)).
Proof. by intros [? ?]. Qed.

Lemma for_each_partition_coupled depth img volume hashes1 hashes2 remaining :
  hashes1 ⊆ hashes2 ->
  forall all1 all2 w1 w2,
  same_time w1 w2 ->
  exists added1 added2 w1' w2',
    for_each_partition depth img volume hashes1 remaining all1 w1
    = (Ok (all1 ++ added1)%list, w1')
    /\ for_each_partition depth img volume hashes2 remaining all2 w2
       = (Ok (all2 ++ added2)%list, w2')
    /\ added1 = matching hashes1 added2
    /\ added2 = matching hashes2 added2
    /\ same_time w1' w2'.
Proof.
  intros Hsub. induction remaining as [|partition rest IH]; intros all1 all2 w1 w2 Hsame.
  - exists [], [], w1, w2. cbn. unfold ret. by rewrite !app_nil_r.
  - rewrite !for_each_partition_step.
    pose proof (same_time_logger INFO (Searching_partition (start partition))
                  INFO (Searching_partition (start partition)) w1 w2 Hsame) as Hlogged.
    destruct (FS_Info img (start partition * block_size volume)) as [fs|e].
    + pose proof (search_filesystem_coupled depth fs hashes1 hashes2
                    (Some (start partition)) (Some (start partition)) _ _ Hlogged)
        as Hscan.
      destruct (search_filesystem depth fs hashes1 _ _) as [[l1|e1] wa] eqn:Hrun1,
               (search_filesystem depth fs hashes2 _ _) as [[l2|e2] wb] eqn:Hrun2;
        try done.
      * apply search_filesystem_returns in Hrun1 as (_ & -> & _).
        apply search_filesystem_returns in Hrun2 as (_ & -> & _).
        destruct (IH (all1 ++ omap (finding_of fs hashes1 (Some (start partition)))
                                (fst (walk_fs depth fs "/")))%list
                    (all2 ++ omap (finding_of fs hashes2 (Some (start partition)))
                                (fst (walk_fs depth fs "/")))%list wa wb Hscan)
          as (added1 & added2 & w1' & w2' & -> & -> & -> & Hsound & Hfinal).
        eexists _, _, w1', w2'. rewrite <- !app_assoc. split; [done|]. split; [done|].
        split; [by rewrite matching_app, <- finding_of_matching|].
        split; [|done]. by rewrite matching_app, <- finding_of_matching, <- Hsound.
      * destruct Hscan as [<- Hscan].
        destruct (IH all1 all2 _ _
                    (same_time_logger ERROR
                       (Could_not_access_filesystem (start partition) e1) ERROR
                       (Could_not_access_filesystem (start partition) e1) wa wb Hscan))
          as (added1 & added2 & w1' & w2' & -> & -> & -> & Hsound & Hfinal).
        by eexists _, _, w1', w2'.
    + destruct (IH all1 all2 _ _
                  (same_time_logger ERROR
                     (Could_not_access_filesystem (start partition) e) ERROR
                     (Could_not_access_filesystem (start partition) e) _ _ Hlogged))
        as (added1 & added2 & w1' & w2' & -> & -> & -> & Hsound & Hfinal).
      by eexists _, _, w1', w2'.
Qed.

(** The search of an image, case by case. *)
Lemma search_image_cases depth pytsk3 image_path hashes w :
  search_image_for_hashes depth pytsk3 image_path hashes w
  = match Img_Info pytsk3 image_path with
    | Raise e => (Ok [], snd (logger ERROR (Error_opening_image image_path e) w))
    | Ok img =>
        match Volume_Info img with
        | Ok volume => for_each_partition depth img volume hashes (partitions volume) [] w
        | Raise _ =>
            match FS_Info img 0 with
            | Raise e =>
                (Ok [], snd (logger ERROR (Error_opening_image image_path e)
                               (snd (logger INFO No_partition_table w))))
            | Ok fs =>
                match search_filesystem depth fs hashes None
                        (snd (logger INFO No_partition_table w))
                with
                | (Ok l, w1) => (Ok l, w1)
                | (Raise e, w1) =>
                    (Ok [], snd (logger ERROR (Error_opening_image image_path e) w1))
                end
            end
        end
    end.
Proof.
  unfold search_image_for_hashes, try_except at 1, bind at 1, lift at 1.
  destruct (Img_Info pytsk3 image_path) as [img|e]; [|done].
  unfold try_except at 1, bind at 1, lift at 1.
  destruct (Volume_Info img) as [volume|e].
  - by destruct (for_each_partition_run depth img volume hashes (partitions volume) [] w)
      as (added & w' & -> & _).
  - unfold bind at 1, logger at 1, emit at 1. unfold bind at 1, lift at 1.
    destruct (FS_Info img 0) as [fs|e']; [|done].
    unfold bind at 1. cbn [logger emit snd].
    by destruct (search_filesystem _ _ _ _ _) as [[l|e'] w1].
Qed.

(** X10 -- The search is monotone in the target set: searching for some
    of the hashes returns exactly those Findings of the search for all of
    them whose digest is among the fewer, in the same order, whatever the
    clock. Whether a file is reported does not depend on the other hashes. *)
Theorem target_set_monotone depth pytsk3 image_path hashes1 hashes2 w :
  hashes1 ⊆ hashes2 ->
  returned (search_image_for_hashes depth pytsk3 image_path hashes1 w)
  = matching hashes1 (returned (search_image_for_hashes depth pytsk3 image_path hashes2 w)).
Proof.
  intros Hsub. unfold returned. rewrite !search_image_cases.
  destruct (Img_Info pytsk3 image_path) as [img|e]; [|done].
  destruct (Volume_Info img) as [volume|e].
  - destruct (for_each_partition_coupled depth img volume hashes1 hashes2
                (partitions volume) Hsub [] [] w w (conj eq_refl eq_refl))
      as (added1 & added2 & w1' & w2' & -> & -> & -> & _). done.
  - destruct (FS_Info img 0) as [fs|e']; [|done].
    pose proof (search_filesystem_coupled depth fs hashes1 hashes2 None None _ _
                  (same_time_logger INFO No_partition_table INFO No_partition_table
                     w w (conj eq_refl eq_refl))) as Hscan.
    destruct (search_filesystem depth fs hashes1 _ _) as [[l1|e1] wa] eqn:Hrun1,
             (search_filesystem depth fs hashes2 _ _) as [[l2|e2] wb] eqn:Hrun2;
      try done.
    apply search_filesystem_returns in Hrun1 as (_ & -> & _).
    apply search_filesystem_returns in Hrun2 as (_ & -> & _).
    cbn. by apply finding_of_matching.
Qed.

Lemma target_set_monotone_witness :
  ({[ h1 ]} : gset string) ⊆ {[ h1; h2 ]}
  /\ returned (search_image_for_hashes recursion_limit image_of_two_files "disk.img"
                 {[ h1 ]} world0)
     = matching {[ h1 ]}
         (returned (search_image_for_hashes recursion_limit image_of_two_files "disk.img"
                      {[ h1; h2 ]} world0)).
Proof.
  assert (({[ h1 ]} : gset string) ⊆ {[ h1; h2 ]}) as Hsub by set_solver.
  split; [exact Hsub|].
  exact (target_set_monotone recursion_limit image_of_two_files "disk.img"
           {[ h1 ]} {[ h1; h2 ]} world0 Hsub).
Defined.

(** The loop over a list of partitions followed by another. *)
Lemma for_each_partition_app depth img volume hashes before after :
  forall all_findings w,
  for_each_partition depth img volume hashes (before ++ after) all_findings w
  = match for_each_partition depth img volume hashes before all_findings w with
    | (Ok found, w1) => for_each_partition depth img volume hashes after found w1
    | (Raise e, w1) => (Raise e, w1)
    end.
Proof.
  induction before as [|partition rest IH]; intros all_findings w; [done|].
  rewrite <- app_comm_cons, !for_each_partition_step.
  destruct (FS_Info img (start partition * block_size volume)) as [fs|e]; [|apply IH].
  destruct (search_filesystem _ _ _ _ _) as [[l|e] w1]; apply IH.
Qed.

(** The loop uses the image to mount and the volume for its block size. *)
Lemma for_each_partition_ext depth img img' volume volume' hashes remaining :
  FS_Info img = FS_Info img' ->
  block_size volume = block_size volume' ->
  forall all_findings w,
  for_each_partition depth img volume hashes remaining all_findings w
  = for_each_partition depth img' volume' hashes remaining all_findings w.
Proof.
  intros Hmount Hsize.
  induction remaining as [|partition rest IH]; intros all_findings w; [done|].
  rewrite !for_each_partition_step, Hmount, Hsize.
  destruct (FS_Info img' (start partition * block_size volume')) as [fs|e]; [|apply IH].
  destruct (search_filesystem _ _ _ _ _) as [[l|e] w1]; apply IH.
Qed.

(** X11 -- A partition that cannot be mounted is skipped: the search
    returns the same Findings as on the image without that partition in
    its table, whatever the clock; the failure costs two log lines only. *)
Theorem unmountable_partition_is_skipped depth pytsk3 pytsk3' image_path hashes w
    img volume before partition after e :
  Img_Info pytsk3 image_path = Ok img ->
  Volume_Info img = Ok volume ->
  partitions volume = (before ++ partition :: after)%list ->
  FS_Info img (start partition * block_size volume) = Raise e ->
  Img_Info pytsk3' image_path = Ok (with_partitions img volume (before ++ after)) ->
  returned (search_image_for_hashes depth pytsk3 image_path hashes w)
  = returned (search_image_for_hashes depth pytsk3' image_path hashes w).
Proof.
  intros Himg Hvolume Hparts Hfail Himg'. unfold returned.
  rewrite !search_image_cases, Himg, Himg', Hvolume, Hparts.
  cbn [Volume_Info with_partitions partitions].
  match goal with
  | |- _ = match fst (for_each_partition _ ?i ?v _ _ _ _) with _ => _ end =>
      rewrite (for_each_partition_ext depth i img v volume) by done
  end.
  rewrite !for_each_partition_app.
  destruct (for_each_partition_run depth img volume hashes before [] w)
    as (found & w1 & -> & _).
  cbn [app]. rewrite for_each_partition_step, Hfail.
  match goal with
  | |- context [for_each_partition _ _ _ _ after found ?wa] =>
      destruct (for_each_partition_coupled depth img volume hashes hashes after
                  (reflexivity hashes) found found wa w1)
        as (added1 & added2 & w1' & w2' & -> & -> & -> & <- & _)
  end.
  { by split. }
  done.
Qed.

Lemma unmountable_partition_is_skipped_witness :
  FS_Info three_partitions (1024 * 512) = Raise IOError
  /\ returned (search_image_for_hashes recursion_limit
                 (library "disk.img" three_partitions) "disk.img" {[ h1; h2 ]} world0)
     = returned (search_image_for_hashes recursion_limit
                   (library "disk.img"
                      (with_partitions three_partitions
                         {| partitions := [ {| start := 0 |}; {| start := 1024 |};
                                            {| start := 2048 |} ];
                            block_size := 512 |}
                         ([ {| start := 0 |} ] ++ [ {| start := 2048 |} ])))
                   "disk.img" {[ h1; h2 ]} world0).
Proof.
  split; [reflexivity|].
  exact (unmountable_partition_is_skipped recursion_limit
           (library "disk.img" three_partitions)
           (library "disk.img"
              (with_partitions three_partitions
                 {| partitions := [ {| start := 0 |}; {| start := 1024 |};
                                    {| start := 2048 |} ];
                    block_size := 512 |}
                 ([ {| start := 0 |} ] ++ [ {| start := 2048 |} ])))
           "disk.img" {[ h1; h2 ]} world0
           three_partitions
           {| partitions := [ {| start := 0 |}; {| start := 1024 |}; {| start := 2048 |} ];
              block_size := 512 |}
           [ {| start := 0 |} ] {| start := 1024 |} [ {| start := 2048 |} ] IOError
           eq_refl eq_refl eq_refl eq_refl eq_refl).
Defined.

(** ** The search under a clock that advances *)

(** A scan during which the clock leaves [start_time] ends as its walk
    does. *)
Lemma search_filesystem_outcome depth fs hashes tag w :
  advances w ->
  exists w',
    search_filesystem depth fs hashes tag w
    = (match snd (walk_fs depth fs "/") with
       | None => Ok (omap (finding_of fs hashes tag) (fst (walk_fs depth fs "/")))
       | Some e => Raise e
       end, w')
    /\ clock w' = clock w
    /\ calls (trace w')
       = (calls (trace w) ++ flat_map (calls_of fs) (fst (walk_fs depth fs "/")))%list.
Proof.
  intros Hclock.
  destruct (search_filesystem_by_loop depth fs hashes tag w)
    as (w0 & Hc0 & Hr0 & Hcalls0 & Hrun).
  edestruct (for_each_benign fs hashes tag 1 (clock w (S (reads w)))
               (fst (walk_fs depth fs "/"))) as (st & w3 & Hloop);
    [|rewrite Hloop in Hrun].
  { intros n Hn. rewrite Hc0. apply Hclock. lia. }
  apply for_each_returns in Hloop as (Hfound & _ & Hc3 & _ & Hcalls3).
  cbn in Hfound.
  destruct (snd (walk_fs depth fs "/")) as [e|].
  - exists w3. split; [done|]. split; congruence.
  - destruct Hrun as (w4 & -> & Hc4 & _ & Hcalls4).
    exists w4. rewrite Hfound. split; [done|]. split; congruence.
Qed.

Lemma for_each_partition_advancing depth img volume hashes remaining :
  forall all_findings w,
  never_repeats w ->
  exists w',
    for_each_partition depth img volume hashes remaining all_findings w
    = (Ok (all_findings
           ++ flat_map (partition_findings depth img volume hashes) remaining)%list, w')
    /\ clock w' = clock w.
Proof.
  induction remaining as [|partition rest IH]; intros all_findings w Hclock.
  - exists w. cbn. unfold ret. by rewrite app_nil_r.
  - rewrite for_each_partition_step. cbn [flat_map]. unfold partition_findings at 1.
    destruct (FS_Info img (start partition * block_size volume)) as [fs|e].
    + destruct (search_filesystem_outcome depth fs hashes (Some (start partition))
                  (snd (logger INFO (Searching_partition (start partition)) w)))
        as (w1 & -> & Hc1 & _).
      { by apply never_repeats_advances. }
      unfold scan_findings. cbn [logger emit snd clock] in Hc1.
      destruct (snd (walk_fs depth fs "/")) as [e|].
      * edestruct (IH all_findings) as (w' & -> & Hc').
        { intros n m Hnm. cbn. rewrite Hc1. by apply Hclock. }
        exists w'. cbn in Hc' |- *. split; [done|congruence].
      * edestruct (IH (all_findings
                       ++ omap (finding_of fs hashes (Some (start partition)))
                            (fst (walk_fs depth fs "/")))%list w1) as (w' & -> & Hc').
        { intros n m Hnm. rewrite Hc1. by apply Hclock. }
        exists w'. rewrite <- app_assoc. split; congruence.
    + edestruct (IH all_findings) as (w' & -> & Hc'); [|by exists w'].
      intros n m Hnm. by apply Hclock.
Qed.

(** X12 -- The search as a function of the image: under a clock that
    never gives the same reading twice, the search returns the Findings
    of the partitions in the order of the table and, in each filesystem,
    in the order of the walk; a filesystem that cannot be mounted or whose
    walk fails contributes nothing, not even the Findings of the files
    that were hashed before the failure. *)
Theorem search_under_an_advancing_clock depth pytsk3 image_path hashes w :
  never_repeats w ->
  fst (search_image_for_hashes depth pytsk3 image_path hashes w)
  = Ok (image_findings depth pytsk3 image_path hashes).
Proof.
  intros Hclock. rewrite search_image_cases. unfold image_findings.
  destruct (Img_Info pytsk3 image_path) as [img|e]; [|done].
  destruct (Volume_Info img) as [volume|e].
  - by destruct (for_each_partition_advancing depth img volume hashes (partitions volume)
                   [] w Hclock) as (w' & -> & _).
  - destruct (FS_Info img 0) as [fs|e']; [|done].
    destruct (search_filesystem_outcome depth fs hashes None
                (snd (logger INFO No_partition_table w))) as (w1 & -> & _).
    { by apply never_repeats_advances. }
    unfold scan_findings. by destruct (snd (walk_fs depth fs "/")).
Qed.

Lemma search_under_an_advancing_clock_witness :
  never_repeats world0
  /\ fst (search_image_for_hashes recursion_limit (library "disk.img" two_partitions)
            "disk.img" {[ h1; h2 ]} world0)
     = Ok (image_findings recursion_limit (library "disk.img" two_partitions)
             "disk.img" {[ h1; h2 ]}).
Proof.
  split; [exact world0_never_repeats|].
  exact (search_under_an_advancing_clock recursion_limit
           (library "disk.img" two_partitions) "disk.img" {[ h1; h2 ]} world0
           world0_never_repeats).
Defined.

(** ** Failures *)

Lemma for_each_partition_unmountable depth img volume hashes remaining :
  (forall partition, partition ∈ remaining ->
     exists e, FS_Info img (start partition * block_size volume) = Raise e) ->
  forall all_findings w,
  for_each_partition depth img volume hashes remaining all_findings w
  = (Ok all_findings,
     {| clock := clock w; reads := reads w;
        trace := trace w ++ flat_map (mount_log img volume) remaining |}).
Proof.
  induction remaining as [|partition rest IH]; intros Hfail all_findings w.
  - destruct w. cbn. unfold ret. by rewrite app_nil_r.
  - rewrite for_each_partition_step.
    destruct (Hfail partition) as [e He]; [left|].
    rewrite He, IH by (intros p Hp; apply Hfail; by right).
    cbn. unfold mount_log at 2. rewrite He, <- !app_assoc. done.
Qed.

(** X13 -- No fallback once the partition table is read: when no
    partition of the table can be mounted, and also when the table is
    empty, the search returns no Finding without reading the clock or a
    file; it logs the two lines of each partition and does not try the
    image as a single filesystem. *)
Theorem no_fallback_when_no_partition_mounts depth pytsk3 image_path hashes w img volume :
  Img_Info pytsk3 image_path = Ok img ->
  Volume_Info img = Ok volume ->
  (forall partition, partition ∈ partitions volume ->
     exists e, FS_Info img (start partition * block_size volume) = Raise e) ->
  search_image_for_hashes depth pytsk3 image_path hashes w
  = (Ok [],
     {| clock := clock w; reads := reads w;
        trace := trace w ++ flat_map (mount_log img volume) (partitions volume) |}).
Proof.
  intros Himg Hvolume Hfail. rewrite search_image_cases, Himg, Hvolume.
  by apply for_each_partition_unmountable.
Qed.

Lemma no_fallback_when_no_partition_mounts_witness :
  search_image_for_hashes recursion_limit (library "disk.img" unformatted) "disk.img"
    {[ h1 ]} world0
  = (Ok [],
     {| clock := clock world0; reads := 0;
        trace := [ Log INFO (Searching_partition 63);
                   Log ERROR (Could_not_access_filesystem 63 IOError) ] |}).
Proof.
  refine (no_fallback_when_no_partition_mounts recursion_limit
            (library "disk.img" unformatted) "disk.img" {[ h1 ]} world0 unformatted
            {| partitions := [ {| start := 63 |} ]; block_size := 512 |}
            eq_refl eq_refl _).
  intros partition _. by exists IOError.
Defined.

(** X14 -- An image or a single filesystem that cannot be opened: when
    [Img_Info] raises, or when the partition table cannot be read and
    [FS_Info] of the whole image raises, the search does not raise; it
    returns no Finding without reading the clock or a file, and its last
    line is the error of opening the image with that exception. *)
Theorem nothing_to_open depth pytsk3 image_path hashes w e :
  Img_Info pytsk3 image_path = Raise e
  \/ (exists img e0,
        Img_Info pytsk3 image_path = Ok img /\ Volume_Info img = Raise e0
        /\ FS_Info img 0 = Raise e) ->
  exists logged,
    search_image_for_hashes depth pytsk3 image_path hashes w
    = (Ok [],
       {| clock := clock w; reads := reads w;
          trace := trace w ++ logged
                   ++ [Log ERROR (Error_opening_image image_path e)] |})
    /\ (logged = [] \/ logged = [Log INFO No_partition_table]).
Proof.
  rewrite search_image_cases.
  intros [->|(img & e0 & -> & -> & ->)].
  - exists []. split; [done|by left].
  - exists [Log INFO No_partition_table]. split; [|by right].
    cbn. by rewrite <- app_assoc.
Qed.

Lemma nothing_to_open_witness :
  exists logged,
    search_image_for_hashes recursion_limit image_of_two_files "other.img" {[ h1 ]} world0
    = (Ok [],
       {| clock := clock world0; reads := reads world0;
          trace := trace world0 ++ logged
                   ++ [Log ERROR (Error_opening_image "other.img" IOError)] |})
    /\ (logged = [] \/ logged = [Log INFO No_partition_table]).
Proof.
  apply (nothing_to_open recursion_limit image_of_two_files "other.img" {[ h1 ]} world0
           IOError).
  left. reflexivity.
Defined.

(** X15 -- A failed walk loses the Findings of an unpartitioned image:
    when the partition table cannot be read, the walk of the single
    filesystem ends with an exception and the clock has left [start_time]
    at every later reading, so that the periodic report cannot divide by
    zero, every file yielded before was opened, read and hashed, yet the
    search returns no Finding, and its last line reports the exception of
    the walk as an error of opening the image. *)
Theorem failed_walk_loses_the_findings depth pytsk3 image_path hashes w img e0 fs
    yielded e :
  Img_Info pytsk3 image_path = Ok img ->
  Volume_Info img = Raise e0 ->
  FS_Info img 0 = Ok fs ->
  walk_fs depth fs "/" = (yielded, Some e) ->
  advances w ->
  exists w',
    search_image_for_hashes depth pytsk3 image_path hashes w = (Ok [], w')
    /\ calls (trace w') = (calls (trace w) ++ flat_map (calls_of fs) yielded)%list
    /\ List.last (trace w') (Log DEBUG Starting_filesystem_search)
       = Log ERROR (Error_opening_image image_path e).
Proof.
  intros Himg Hvolume Hfs Hwalk Hclock.
  rewrite search_image_cases, Himg, Hvolume, Hfs.
  destruct (search_filesystem_outcome depth fs hashes None
              (snd (logger INFO No_partition_table w)) Hclock)
    as (w1 & -> & _ & Hcalls).
  rewrite Hwalk in Hcalls |- *. cbn [fst snd] in *.
  eexists. split; [reflexivity|]. cbn [logger emit snd trace] in *.
  rewrite calls_app, Hcalls, calls_app. cbn. rewrite !app_nil_r.
  split; [done|]. apply last_last.
Qed.

Lemma failed_walk_loses_the_findings_witness :
  advances world0
  /\ exists w',
       search_image_for_hashes recursion_limit
         (library "disk.img" (unpartitioned (failing_subdirectory RuntimeError)))
         "disk.img" {[ h1 ]} world0 = (Ok [], w')
       /\ calls (trace w')
          = (calls (trace world0)
             ++ flat_map (calls_of (failing_subdirectory RuntimeError)) ["//a.txt"])%list
       /\ List.last (trace w') (Log DEBUG Starting_filesystem_search)
          = Log ERROR (Error_opening_image "disk.img" RuntimeError).
Proof.
  split; [exact world0_advances|].
  apply (failed_walk_loses_the_findings recursion_limit
           (library "disk.img" (unpartitioned (failing_subdirectory RuntimeError)))
           "disk.img" {[ h1 ]} world0
           (unpartitioned (failing_subdirectory RuntimeError)) IOError
           (failing_subdirectory RuntimeError) ["//a.txt"] RuntimeError);
    [reflexivity|reflexivity|reflexivity|reflexivity|exact world0_advances].
Defined.

(** * The fallback and the digest *)

(** ** The calls of a search *)

(** Whether the loop returns or raises, it has made the calls of the
    yielded paths up to some point, in order. *)
Lemma for_each_calls fs hashes tag progress_interval start_time yielded :
  forall st w,
  exists k,
    calls (trace (snd (for_each
                         (iteration fs hashes tag progress_interval start_time)
                         yielded st w)))
    = (calls (trace w) ++ flat_map (calls_of fs) (take k yielded))%list.
Proof.
  induction yielded as [|path rest IH]; intros st w; cbn [for_each].
  - exists 0%nat. cbn. by rewrite app_nil_r.
  - destruct (iteration_run fs hashes tag progress_interval start_time st path w)
      as (w1 & Hit & _ & _ & Hcalls).
    unfold bind. rewrite Hit. destruct (report_fails _ _ _ _).
    + exists 1%nat. cbn. by rewrite Hcalls, app_nil_r.
    + match goal with |- context [for_each _ rest ?st1 w1] =>
        destruct (IH st1 w1) as [k Hk] end.
      exists (S k). cbn [take flat_map]. by rewrite Hk, Hcalls, <- app_assoc.
Qed.

Lemma search_filesystem_calls depth fs hashes tag w :
  exists k,
    calls (trace (snd (search_filesystem depth fs hashes tag w)))
    = (calls (trace w)
       ++ flat_map (calls_of fs) (take k (fst (walk_fs depth fs "/"))))%list.
Proof.
  destruct (search_filesystem_by_loop depth fs hashes tag w)
    as (w0 & _ & _ & Hcalls0 & Hrun).
  match type of Hrun with context [for_each ?body ?ys ?st w0] =>
    destruct (for_each_calls fs hashes tag 1 (clock w (S (reads w))) ys st w0) as [k Hk];
    destruct (for_each body ys st w0) as [[st'|e] w3]
  end; cbn [snd] in Hk; exists k.
  - destruct (snd (walk_fs depth fs "/")) as [e|].
    + rewrite Hrun. cbn [snd]. congruence.
    + destruct Hrun as (w4 & -> & _ & _ & Hcalls4). cbn [snd]. congruence.
  - rewrite Hrun. cbn [snd]. congruence.
Qed.

Lemma elem_of_flat_map_take fs k yielded ev :
  ev ∈ flat_map (calls_of fs) (take k yielded) ->
  exists path, path ∈ yielded /\ ev ∈ calls_of fs path.
Proof.
  intros (path & Hpath & Hev)%list_elem_of_In%in_flat_map.
  exists path. split; [|by apply list_elem_of_In].
  apply list_elem_of_In in Hpath. by apply (subseteq_take k yielded).
Qed.

(** Every call of a scan is a call for a path that the walk yields. *)
Lemma search_filesystem_call depth fs hashes tag w ev :
  ev ∈ calls (trace (snd (search_filesystem depth fs hashes tag w))) ->
  ev ∈ calls (trace w)
  \/ exists path, path ∈ fst (walk_fs depth fs "/") /\ ev ∈ calls_of fs path.
Proof.
  destruct (search_filesystem_calls depth fs hashes tag w) as [k ->].
  intros [Hev|Hev]%elem_of_app; [by left|right].
  by apply elem_of_flat_map_take in Hev.
Qed.

Lemma for_each_partition_call depth img volume hashes remaining ev :
  forall all_findings w,
  ev ∈ calls (trace (snd (for_each_partition depth img volume hashes remaining
                            all_findings w))) ->
  ev ∈ calls (trace w)
  \/ exists partition fs path,
       partition ∈ remaining
       /\ FS_Info img (start partition * block_size volume) = Ok fs
       /\ path ∈ fst (walk_fs depth fs "/") /\ ev ∈ calls_of fs path.
Proof.
  induction remaining as [|partition rest IH]; intros all_findings w; [by left|].
  rewrite for_each_partition_step.
  assert (forall found w1,
            (ev ∈ calls (trace w1) ->
             ev ∈ calls (trace w)
             \/ exists p fs path,
                  p ∈ partition :: rest
                  /\ FS_Info img (start p * block_size volume) = Ok fs
                  /\ path ∈ fst (walk_fs depth fs "/") /\ ev ∈ calls_of fs path) ->
            ev ∈ calls (trace (snd (for_each_partition depth img volume hashes rest
                                      found w1))) ->
            ev ∈ calls (trace w)
            \/ exists p fs path,
                 p ∈ partition :: rest
                 /\ FS_Info img (start p * block_size volume) = Ok fs
                 /\ path ∈ fst (walk_fs depth fs "/") /\ ev ∈ calls_of fs path) as Hrest.
  { intros found w1 Hbefore [Hev|(p & fs & path & Hp & Hfs & Hpath & Hev)]%IH.
    - by apply Hbefore.
    - right. exists p, fs, path. split; [by right|done]. }
  destruct (FS_Info img (start partition * block_size volume)) as [fs|e] eqn:Hfs.
  - pose proof (search_filesystem_call depth fs hashes (Some (start partition))
                  (snd (logger INFO (Searching_partition (start partition)) w)) ev)
      as Hscan.
    destruct (search_filesystem depth fs hashes (Some (start partition)) _)
      as [[l|e] w1]; cbn [snd] in Hscan; apply Hrest.
    + intros [Hev|(path & Hpath & Hev)]%Hscan.
      * left. revert Hev. cbn. by rewrite calls_app, app_nil_r.
      * right. exists partition, fs, path. split; [left|done].
    + cbn. rewrite calls_app, app_nil_r.
      intros [Hev|(path & Hpath & Hev)]%Hscan.
      * left. revert Hev. cbn. by rewrite calls_app, app_nil_r.
      * right. exists partition, fs, path. split; [left|done].
  - apply Hrest. cbn. rewrite !calls_app, !app_nil_r. by left.
Qed.

(** Every call of a search is a call for a path that the walk of a
    filesystem of the image yields. *)
Lemma search_image_call depth pytsk3 image_path hashes w ev :
  ev ∈ calls (trace (snd (search_image_for_hashes depth pytsk3 image_path hashes w))) ->
  ev ∈ calls (trace w)
  \/ exists img offset fs path,
       Img_Info pytsk3 image_path = Ok img
       /\ FS_Info img offset = Ok fs
       /\ path ∈ fst (walk_fs depth fs "/") /\ ev ∈ calls_of fs path.
Proof.
  rewrite search_image_cases.
  destruct (Img_Info pytsk3 image_path) as [img|e] eqn:Himg.
  2: { cbn. rewrite calls_app, app_nil_r. by left. }
  destruct (Volume_Info img) as [volume|e].
  - intros [Hev|(p & fs & path & _ & Hfs & Hpath & Hev)]%for_each_partition_call;
      [by left|right].
    by exists img, (start p * block_size volume)%Z, fs, path.
  - destruct (FS_Info img 0) as [fs|e'] eqn:Hfs.
    2: { cbn. rewrite !calls_app, !app_nil_r. by left. }
    pose proof (search_filesystem_call depth fs hashes None
                  (snd (logger INFO No_partition_table w)) ev) as Hscan.
    destruct (search_filesystem depth fs hashes None _) as [[l|e'] w1];
      cbn [snd] in Hscan |- *.
    + intros [Hev|(path & Hpath & Hev)]%Hscan.
      * left. revert Hev. cbn. by rewrite calls_app, app_nil_r.
      * right. by exists img, 0%Z, fs, path.
    + cbn. rewrite calls_app, app_nil_r.
      intros [Hev|(path & Hpath & Hev)]%Hscan.
      * left. revert Hev. cbn. by rewrite calls_app, app_nil_r.
      * right. by exists img, 0%Z, fs, path.
Qed.

(** The digest that is computed for a path is that of the bytes read from
    its file. *)
Lemma hashed_in_calls_of fs path data :
  Call_sha256 data ∈ calls_of fs path ->
  exists file_obj, open fs path = Ok file_obj /\ content_read file_obj = Ok data.
Proof.
  unfold calls_of. intros [[=]|Hev]%elem_of_cons.
  destruct (open fs path) as [file_obj|e]; [|by apply elem_of_nil in Hev].
  destruct (times_of file_obj); [|by apply elem_of_nil in Hev].
  exists file_obj. split; [done|].
  apply elem_of_app in Hev as [Hev|Hev].
  - destruct (declared_size file_obj =? 0)%Z; [by apply elem_of_nil in Hev|].
    by apply list_elem_of_singleton in Hev.
  - destruct (content_read file_obj) as [data'|]; [|by apply elem_of_nil in Hev].
    apply list_elem_of_singleton in Hev. by injection Hev as ->.
Qed.

Lemma elem_of_calls ev t : ev ∈ calls t <-> ev ∈ t /\ is_call ev = true.
Proof. unfold calls. rewrite !list_elem_of_In. apply List.filter_In. Qed.

(** ** The fallback *)

(** C5 -- Unpartitioned fallback: when the partition table of an opened
    image cannot be read, whatever the exception, the search returns and
    every Finding has no [partition_offset]. It mounts the whole image as
    one filesystem: when the mount fails, it returns nothing and opens no
    file; when it succeeds, the files that are opened, read and hashed are
    those that the walk of that filesystem yields, in its order up to some
    point; when the walk returns and the clock has left [start_time] at
    every later reading, that point is the end and the result is the
    Finding of each yielded file; when the walk fails, the result is
    empty. *)
Theorem unpartitioned_fallback depth pytsk3 image_path hashes w img e :
  Img_Info pytsk3 image_path = Ok img ->
  Volume_Info img = Raise e ->
  exists l w',
    search_image_for_hashes depth pytsk3 image_path hashes w = (Ok l, w')
    /\ (forall f, f ∈ l -> partition_offset f = None)
    /\ match FS_Info img 0 with
       | Raise _ => l = [] /\ calls (trace w') = calls (trace w)
       | Ok fs =>
           (exists k,
              calls (trace w')
              = (calls (trace w)
                 ++ flat_map (calls_of fs) (take k (fst (walk_fs depth fs "/"))))%list)
           /\ (forall yielded,
                 walk_fs depth fs "/" = (yielded, None) -> advances w ->
                 l = omap (finding_of fs hashes None) yielded
                 /\ calls (trace w')
                    = (calls (trace w) ++ flat_map (calls_of fs) yielded)%list)
           /\ (forall e', snd (walk_fs depth fs "/") = Some e' -> l = [])
       end.
Proof.
  intros Himg Hvolume. rewrite search_image_cases, Himg, Hvolume.
  destruct (FS_Info img 0) as [fs|e'].
  2: { eexists [], _. split; [reflexivity|]. split; [by intros f ?%elem_of_nil|].
       split; [done|]. cbn. by rewrite !calls_app, !app_nil_r. }
  assert (calls (trace (snd (logger INFO No_partition_table w))) = calls (trace w))
    as Hlogged by (cbn; by rewrite calls_app, app_nil_r).
  destruct (search_filesystem_calls depth fs hashes None
              (snd (logger INFO No_partition_table w))) as [k Hk].
  rewrite Hlogged in Hk.
  destruct (search_filesystem depth fs hashes None _) as [[l|e1] w1] eqn:Hrun;
    cbn [snd] in Hk.
  - pose proof Hrun as (Hend & -> & Hcalls)%search_filesystem_returns.
    rewrite Hlogged in Hcalls.
    eexists _, w1. split; [reflexivity|]. split.
    { intros f (path & _ & Hfind)%list_elem_of_omap.
      by apply finding_of_Some in Hfind as (? & ? & ? & ? & ? & _ & _ & ->). }
    split; [by exists k|]. split.
    + intros yielded Hwalk _. by rewrite Hwalk in Hcalls |- *.
    + intros e' He'. congruence.
  - eexists [], _. split; [reflexivity|]. split; [by intros f ?%elem_of_nil|].
    split; [exists k; cbn; by rewrite calls_app, app_nil_r|]. split; [|done].
    intros yielded Hwalk Hclock.
    destruct (search_filesystem_benign depth fs hashes None
                (snd (logger INFO No_partition_table w)) yielded Hwalk Hclock)
      as (w2 & Hok & _).
    congruence.
Qed.

Lemma unpartitioned_fallback_witness :
  (Img_Info image_of_two_files "disk.img" = Ok (unpartitioned (tree_fs two_files))
   /\ Volume_Info (unpartitioned (tree_fs two_files)) = Raise IOError)
  /\ exists l w',
       search_image_for_hashes recursion_limit image_of_two_files "disk.img"
         {[ h1 ]} world0 = (Ok l, w')
       /\ (forall f, f ∈ l -> partition_offset f = None)
       /\ match FS_Info (unpartitioned (tree_fs two_files)) 0 with
          | Raise _ => l = [] /\ calls (trace w') = calls (trace world0)
          | Ok fs =>
              (exists k,
                 calls (trace w')
                 = (calls (trace world0)
                    ++ flat_map (calls_of fs)
                         (take k (fst (walk_fs recursion_limit fs "/"))))%list)
              /\ (forall yielded,
                    walk_fs recursion_limit fs "/" = (yielded, None) ->
                    advances world0 ->
                    l = omap (finding_of fs {[ h1 ]} None) yielded
                    /\ calls (trace w')
                       = (calls (trace world0) ++ flat_map (calls_of fs) yielded)%list)
              /\ (forall e', snd (walk_fs recursion_limit fs "/") = Some e' -> l = [])
          end.
Proof.
  split; [split; reflexivity|].
  apply (unpartitioned_fallback recursion_limit image_of_two_files "disk.img" {[ h1 ]}
           world0 (unpartitioned (tree_fs two_files)) IOError); reflexivity.
Defined.

(** The fallback can scan less than the image. On an image without a
    partition table whose filesystem holds [a.txt], a directory that
    cannot be opened and [c.txt], the walk fails at the directory: [a.txt]
    is read and hashed, [c.txt] is never opened, and the search returns
    nothing, although both files are in the target set. On an image
    without a filesystem, nothing is scanned at all. *)
Lemma fallback_scans_less_than_the_image :
  Volume_Info (unpartitioned (failing_subdirectory RuntimeError)) = Raise IOError
  /\ finding_of (failing_subdirectory RuntimeError) {[ h1; h2 ]} None "//a.txt"
     = Some (finding_a "//a.txt" None)
  /\ finding_of (failing_subdirectory RuntimeError) {[ h1; h2 ]} None "//c.txt"
     = Some (finding_c "//c.txt" None)
  /\ fst (search_image_for_hashes recursion_limit
            (library "disk.img" (unpartitioned (failing_subdirectory RuntimeError)))
            "disk.img" {[ h1; h2 ]} world0) = Ok []
  /\ calls (trace (snd (search_image_for_hashes recursion_limit
                          (library "disk.img"
                             (unpartitioned (failing_subdirectory RuntimeError)))
                          "disk.img" {[ h1; h2 ]} world0)))
     = [ Call_open "//a.txt"; Call_read_random "//a.txt" 0 5;
         Call_sha256 (bytes_of_string "alpha") ]
  /\ search_image_for_hashes recursion_limit (library "disk.img" blank_image)
       "disk.img" {[ h1; h2 ]} world0
     = (Ok [],
        {| clock := clock world0; reads := 0;
           trace := [ Log INFO No_partition_table;
                      Log ERROR (Error_opening_image "disk.img" IOError) ] |})
  /\ ~ (forall depth pytsk3 image_path hashes w img e fs,
          Img_Info pytsk3 image_path = Ok img ->
          Volume_Info img = Raise e ->
          FS_Info img 0 = Ok fs ->
          returned (search_image_for_hashes depth pytsk3 image_path hashes w)
          = omap (finding_of fs hashes None) (fst (walk_fs depth fs "/"))).
Proof.
  do 6 (split; [vm_compute; reflexivity|]).
  intros Hclaim.
  specialize (Hclaim recursion_limit
                (library "disk.img" (unpartitioned (failing_subdirectory RuntimeError)))
                "disk.img" {[ h1; h2 ]} world0
                (unpartitioned (failing_subdirectory RuntimeError)) IOError
                (failing_subdirectory RuntimeError) eq_refl eq_refl eq_refl).
  vm_compute in Hclaim. discriminate Hclaim.
Qed.

(** ** The digest *)

(** C10 -- The digest is SHA-256 in hexadecimal. The digest function gives
    the values of FIPS 180-4 on its test vectors, of one block and of two,
    and always 64 lowercase hexadecimal digits. Every digest that a search
    computes is computed from the bytes read from a file that the walk of
    a filesystem of the image yields; the [hash_value] of every Finding is
    that digest of the bytes read from its file and is the member of the
    target set that matched, so a target set matches only through members
    that are such strings. *)
Theorem digest_is_sha256_hex depth pytsk3 image_path hashes w :
  (sha256_hexdigest []
   = "e3b0c44298fc1c149afbf4c8996fb92427ae41e4649b934ca495991b7852b855"
   /\ sha256_hexdigest (bytes_of_string "abc")
      = "ba7816bf8f01cfea414140de5dae2223b00361a396177a9cb410ff61f20015ad"
   /\ sha256_hexdigest
        (bytes_of_string "abcdbcdecdefdefgefghfghighijhijkijkljklmklmnlmnomnopnopq")
      = "248d6a61d20638b8e5c026930c3e6039a33ce45964ff2167f6ecedd419db06c1")
  /\ (forall data, is_sha256_hex (sha256_hexdigest data) = true)
  /\ (forall data,
        Call_sha256 data
          ∈ trace (snd (search_image_for_hashes depth pytsk3 image_path hashes w)) ->
        Call_sha256 data ∈ trace w
        \/ exists img offset fs path file_obj,
             Img_Info pytsk3 image_path = Ok img
             /\ FS_Info img offset = Ok fs
             /\ path ∈ fst (walk_fs depth fs "/")
             /\ open fs path = Ok file_obj
             /\ content_read file_obj = Ok data)
  /\ (forall f,
        f ∈ returned (search_image_for_hashes depth pytsk3 image_path hashes w) ->
        (exists img offset fs file_obj data,
           Img_Info pytsk3 image_path = Ok img
           /\ FS_Info img offset = Ok fs
           /\ open fs (file_path f) = Ok file_obj
           /\ content_read file_obj = Ok data
           /\ hash_value f = sha256_hexdigest data)
        /\ is_sha256_hex (hash_value f) = true
        /\ hash_value f ∈ hashes).
Proof.
  split; [by rewrite sha256_empty, sha256_abc, sha256_two_blocks|].
  split; [apply sha256_hexdigest_is_hex|]. split.
  - intros data Hev.
    assert (Call_sha256 data
              ∈ calls (trace (snd (search_image_for_hashes depth pytsk3 image_path
                                     hashes w)))) as Hcall
      by by apply elem_of_calls.
    apply search_image_call in Hcall
      as [Hold|(img & offset & fs & path & Himg & Hfs & Hpath & Hcall)].
    + left. by apply elem_of_calls in Hold as [? _].
    + right. apply hashed_in_calls_of in Hcall as (file_obj & Hopen & Hread).
      by exists img, offset, fs, path, file_obj.
  - intros f (Hin & Hhex & Hread)%returned_finding. by repeat split.
Qed.

Lemma digest_is_sha256_hex_witness :
  finding_a "//a.txt" None
    ∈ returned (search_image_for_hashes recursion_limit image_of_two_files "disk.img"
                  {[ h1 ]} world0)
  /\ hash_value (finding_a "//a.txt" None)
     = "8ed3f6ad685b959ead7022518e1af76cd816f8e8ec7ccdda1ed4018e8f2223f8"
  /\ ((exists img offset fs file_obj data,
         Img_Info image_of_two_files "disk.img" = Ok img
         /\ FS_Info img offset = Ok fs
         /\ open fs (file_path (finding_a "//a.txt" None)) = Ok file_obj
         /\ content_read file_obj = Ok data
         /\ hash_value (finding_a "//a.txt" None) = sha256_hexdigest data)
      /\ is_sha256_hex (hash_value (finding_a "//a.txt" None)) = true
      /\ hash_value (finding_a "//a.txt" None) ∈ ({[ h1 ]} : gset string)).
Proof.
  assert (finding_a "//a.txt" None
            ∈ returned (search_image_for_hashes recursion_limit image_of_two_files
                          "disk.img" {[ h1 ]} world0)) as Hin.
  { rewrite search_of_two_files. left. }
  split; [exact Hin|]. split; [vm_compute; reflexivity|].
  exact (proj2 (proj2 (proj2 (digest_is_sha256_hex recursion_limit image_of_two_files
                                "disk.img" {[ h1 ]} world0)))
           (finding_a "//a.txt" None) Hin).
Defined.
